(** * Resilience and admission layer of the RAG platform

    A shallow embedding of
      - [src/service-integration.py]  (CircuitBreaker, ServiceIntegration.call_service),
      - [src/error-handling.py]       (with_error_handling),
      - [src/security-config.py]      (SecurityManager, SecurityMiddleware,
                                       require_permissions),
    followed by the properties of the specification that concern them.

    Conventions.
    - Python [int]s are [Z].  Clock readings ([datetime.utcnow()]) and
      durations are integers counted in microseconds; a reading of the clock
      is an input of the model.
    - A name is looked up when the statement that uses it runs.
      [service-integration.py] calls [time.time()] without importing [time]:
      the model raises NameError there, as the interpreter does.  The
      [os.getenv] of [security-config.py] stands in the body of the class
      [SecurityConfig], outside every function embedded here.
    - A coroutine that is awaited is a function of the world it runs in; the
      world records how often the wrapped operation was invoked and which
      sleeps were requested, so that "never invoked" and "waits d" are
      statements about the final world.
    - Failures are the instances of Python's [Exception]; signals that only
      derive from [BaseException] are outside the model. *)

From Stdlib Require Import ZArith Lia String List.
From stdpp Require Import gmap strings list pretty.
Import ListNotations.

Local Open Scope string_scope.
Local Open Scope list_scope.
Local Open Scope Z_scope.

(** ** Python runtime: exceptions, outcomes, the world of a coroutine *)

Module Py.

Inductive exn : Type :=
| Exception (msg : string)
| ValueError (msg : string)
| TypeError (msg : string)
| KeyError (key : string)
| NameError (msg : string)
| ClientError (msg : string)          (* aiohttp.ClientError *)
| TimeoutError                        (* asyncio.TimeoutError *)
| JWTError                            (* jose.JWTError *)
| HTTPException (status_code : Z) (detail : string)
| ModelError (msg : string)
| EmbeddingError (msg : string)
| TokenLimitError (msg : string).

(** [type(e).__name__] *)
Definition type_name (e : exn) : string :=
  match e with
  | Exception _ => "Exception"
  | ValueError _ => "ValueError"
  | TypeError _ => "TypeError"
  | KeyError _ => "KeyError"
  | NameError _ => "NameError"
  | ClientError _ => "ClientError"
  | TimeoutError => "TimeoutError"
  | JWTError => "JWTError"
  | HTTPException _ _ => "HTTPException"
  | ModelError _ => "ModelError"
  | EmbeddingError _ => "EmbeddingError"
  | TokenLimitError _ => "TokenLimitError"
  end.

Inductive outcome (A : Type) : Type :=
| Returned (a : A)
| Raised (e : exn).
Arguments Returned {A} a.
Arguments Raised {A} e.

Definition is_raised {A} (o : outcome A) : bool :=
  match o with Raised _ => true | Returned _ => false end.

(** [raise x] where [x] may be [None]: Python refuses to raise [None]. *)
Definition raise_ {A} (x : option exn) : outcome A :=
  match x with
  | Some e => Raised e
  | None => Raised (TypeError "exceptions must derive from BaseException")
  end.

(** What a coroutine can observe and change. *)
Record World : Type := mkWorld {
  clock : Z;                 (* current reading of the wall clock *)
  invoked : nat;             (* invocations of the wrapped operation so far *)
  slept : list Z;            (* arguments of asyncio.sleep, oldest first *)
  handled : list string      (* error handlers that ran, oldest first *)
}.

(** The wrapped operation [func]: what its [i]-th invocation (counting from
    0) results in, and how long it takes. *)
Definition operation (R : Type) : Type := nat -> outcome R * Z.

(** [await func(...)] *)
Definition await {R} (func : operation R) (w : World) : outcome R * World :=
  let '(r, d) := func (invoked w) in
  (r, {| clock := clock w + d; invoked := S (invoked w);
         slept := slept w; handled := handled w |}).

(** [await asyncio.sleep(d)] *)
Definition sleep (d : Z) (w : World) : World :=
  {| clock := clock w + Z.max 0 d; invoked := invoked w;
     slept := slept w ++ [d]; handled := handled w |}.

Definition world0 : World :=
  {| clock := 0; invoked := 0%nat; slept := []; handled := [] |}.

End Py.
Import Py.

(** ** service-integration.py: CircuitBreaker *)

Module CB.

Inductive State : Type := Closed | Open | HalfOpen.   (* "closed", "open", "half-open" *)

Record CircuitBreaker : Type := mkCB {
  threshold : Z;
  reset_timeout : Z;
  failures : Z;
  last_failure_time : Z;
  state : State
}.

(** [CircuitBreaker.__init__] *)
Definition init (threshold reset_timeout : Z) : CircuitBreaker :=
  {| threshold := threshold; reset_timeout := reset_timeout;
     failures := 0; last_failure_time := 0; state := Closed |}.

Definition set_state (s : State) (self : CircuitBreaker) : CircuitBreaker :=
  {| threshold := threshold self; reset_timeout := reset_timeout self;
     failures := failures self; last_failure_time := last_failure_time self;
     state := s |}.

Definition breaker_open : exn := Exception "Circuit breaker is open".

(** [time.time()], at lines 30 and 43.  The module imports typing, asyncio,
    dataclasses, aiohttp, logging, contextlib, prometheus_client, json and
    backoff (lines 1-9) and never [time]: evaluating the name raises
    NameError before any clock is read. *)
Definition name_error : exn := NameError "name 'time' is not defined".

Definition time_time (w : World) : outcome Z := Raised name_error.

(** Lines 29-33: the test made on entry. *)
Definition on_entry (self : CircuitBreaker) (w : World) : outcome CircuitBreaker :=
  match state self with
  | Open =>
      match time_time w with
      | Raised e => Raised e
      | Returned now =>
          if now - last_failure_time self >? reset_timeout self
          then Returned (set_state HalfOpen self)
          else Raised breaker_open
      end
  | _ => Returned self
  end.

(** Lines 37-40: the wrapped call returned. *)
Definition on_success (self : CircuitBreaker) : CircuitBreaker :=
  match state self with
  | HalfOpen =>
      {| threshold := threshold self; reset_timeout := reset_timeout self;
         failures := 0; last_failure_time := last_failure_time self;
         state := Closed |}
  | _ => self
  end.

(** Lines 41-46: the wrapped call raised [e].  Line 42 counts the failure;
    line 43 evaluates [time.time()], and only past it are the timestamp and
    the state written and [e] raised again.  The result is the exception
    that leaves the handler and the breaker it leaves behind. *)
Definition on_failure (self : CircuitBreaker) (e : exn) (w : World)
  : exn * CircuitBreaker :=
  let self1 :=
    {| threshold := threshold self; reset_timeout := reset_timeout self;
       failures := failures self + 1; last_failure_time := last_failure_time self;
       state := state self |} in
  match time_time w with
  | Raised e' => (e', self1)
  | Returned now =>
      let self2 :=
        {| threshold := threshold self1; reset_timeout := reset_timeout self1;
           failures := failures self1; last_failure_time := now;
           state := state self1 |} in
      (e, if failures self2 >=? threshold self2 then set_state Open self2 else self2)
  end.

(** Lines 35-46: the [try] block, run on a breaker that passed the entry
    test. *)
Definition complete {R} (self : CircuitBreaker) (func : operation R) (w : World)
  : outcome R * CircuitBreaker * World :=
  let '(r, w1) := await func w in
  match r with
  | Returned result => (Returned result, on_success self, w1)
  | Raised e =>
      let '(e', self') := on_failure self e w1 in (Raised e', self', w1)
  end.

(** [CircuitBreaker.call] *)
Definition call {R} (self : CircuitBreaker) (func : operation R) (w : World)
  : outcome R * CircuitBreaker * World :=
  match on_entry self w with
  | Raised e => (Raised e, self, w)
  | Returned self1 => complete self1 func w
  end.

(** The breakers a program can hold: built by [__init__] and changed only
    by the three atomic blocks of [call], in any interleaving of the
    coroutines that share the breaker. *)
Inductive reachable (th rt : Z) : CircuitBreaker -> Prop :=
| reach_init : reachable th rt (init th rt)
| reach_entry self w self' :
    reachable th rt self -> on_entry self w = Returned self' ->
    reachable th rt self'
| reach_success self :
    reachable th rt self -> reachable th rt (on_success self)
| reach_failure self e w :
    reachable th rt self -> reachable th rt (snd (on_failure self e w)).

(** How many of the invocations [i], [i+1], ..., [i+n-1] of [func] raise. *)
Fixpoint raised_among {R} (func : operation R) (i : nat) (n : nat) : nat :=
  match n with
  | O => O
  | S n' =>
      ((if is_raised (fst (func i)) then 1 else 0) + raised_among func (S i) n')%nat
  end.

(** A call through the breaker, [n] times in a row, on the same operation. *)
Fixpoint calls {R} (n : nat) (self : CircuitBreaker) (func : operation R) (w : World)
  : CircuitBreaker * World :=
  match n with
  | O => (self, w)
  | S n' => let '(_, self1, w1) := call self func w in calls n' self1 func w1
  end.

#[export] Instance State_eq_dec : EqDecision State.
Proof. solve_decision. Defined.

End CB.

(** ** error-handling.py: the retry decorator *)

Module Retry.

(** [ErrorHandler.error_handlers] after the module's registrations
    (lines 157-159): keyed by the exact class name. *)
Definition error_handlers : gmap string string :=
  <["TokenLimitError" := "handle_token_limit_error"]>
  (<["EmbeddingError" := "handle_embedding_error"]>
  (<["ModelError" := "handle_model_error"]> ∅)).

(** Lines 65-70.  Each registered handler wraps its whole body in
    [try ... except Exception], and the decorator wraps the call once more:
    a handler leaves no trace on the retry loop but the fact that it ran. *)
Definition run_handler (e : exn) (w : World) : World :=
  match error_handlers !! type_name e with
  | Some h =>
      {| clock := clock w; invoked := invoked w; slept := slept w;
         handled := handled w ++ [h] |}
  | None => w
  end.

(** Lines 40-76: the [while] loop and the final [raise last_error].  One
    unit of [fuel] is spent per iteration; [None] means the fuel ran out
    before the loop ended. *)
Fixpoint wrapper_loop {R} (fuel : nat) (max_retries retry_delay : Z)
    (func : operation R) (retries : Z) (last_error : option exn) (w : World)
  : option (outcome R * World) :=
  if retries <? max_retries then
    match fuel with
    | O => None
    | S fuel' =>
        let '(r, w1) := await func w in
        match r with
        | Returned result => Some (Returned result, w1)
        | Raised e =>
            let retries := retries + 1 in
            let last_error := Some e in
            let w2 := run_handler e w1 in
            let w3 :=
              if retries <? max_retries
              then sleep (retry_delay * 2 ^ (retries - 1)) w2
              else w2 in
            wrapper_loop fuel' max_retries retry_delay func retries last_error w3
        end
    end
  else Some (raise_ last_error, w).

(** [with_error_handling(max_retries, retry_delay)(func)]: every failed
    iteration increases [retries], so [max_retries] iterations are
    enough. *)
Definition wrapper {R} (max_retries retry_delay : Z) (func : operation R)
    (w : World) : option (outcome R * World) :=
  wrapper_loop (Z.to_nat max_retries) max_retries retry_delay func 0 None w.

(** The waits requested after failures number [k+1], [k+2], ..., [k+n]. *)
Definition backoffs (retry_delay : Z) (k : Z) (n : nat) : list Z :=
  map (fun i => retry_delay * 2 ^ (k + Z.of_nat i)) (seq 0 n).

Definition total (l : list Z) : Z := fold_right Z.add 0 l.

(** The world after a failed iteration that began with [retries] failures
    behind it: handler, then the backoff sleep unless the attempts are used
    up (lines 65-73). *)
Definition after_failure (max_retries retry_delay retries : Z) (e : exn)
    (w1 : World) : World :=
  if retries + 1 <? max_retries
  then sleep (retry_delay * 2 ^ retries) (run_handler e w1)
  else run_handler e w1.

(** The handler the decorator runs for an outcome of the operation: none
    for a returned value or for a class without registered handler. *)
Definition handler_for {R} (o : outcome R) : option string :=
  match o with
  | Returned _ => None
  | Raised e => error_handlers !! type_name e
  end.

(** The handlers run over invocations [i], [i+1], ..., [i+k-1] of [func]. *)
Definition handlers_run {R} (func : operation R) (i : nat) (k : nat) : list string :=
  omap (fun j => handler_for (fst (func j))) (seq i k).

(** The time the invocations [i], [i+1], ..., [i+k-1] of [func] take. *)
Definition durations {R} (func : operation R) (i : nat) (k : nat) : Z :=
  total (map (fun j => snd (func j)) (seq i k)).

(** How long the sleeps asked for last: [asyncio.sleep] returns at once for
    a delay that is not positive. *)
Definition waited (delays : list Z) : list Z := map (Z.max 0) delays.

End Retry.

(** ** service-integration.py: ServiceIntegration.call_service *)

Module Gateway.
Import CB.

Record ServiceConfig : Type := mkConfig {
  name : string;
  host : string;
  port : Z;
  timeout : Z;
  retry_count : Z;
  circuit_breaker_threshold : Z
}.

(** The two dictionaries of [ServiceIntegration]; the HTTP session and the
    metrics objects carry no decision. *)
Record ServiceIntegration : Type := mkSI {
  services : gmap string ServiceConfig;
  circuit_breakers : gmap string CircuitBreaker
}.

Definition new : ServiceIntegration :=
  {| services := ∅; circuit_breakers := ∅ |}.

(** [CircuitBreaker(threshold=...)] keeps the default [reset_timeout=60.0]. *)
Definition register_service (config : ServiceConfig) (self : ServiceIntegration)
  : ServiceIntegration :=
  {| services := <[name config := config]> (services self);
     circuit_breakers :=
       <[name config := init (circuit_breaker_threshold config) 60000000]>
         (circuit_breakers self) |}.

Definition initialize (self : ServiceIntegration) : ServiceIntegration :=
  register_service
    {| name := "chroma"; host := "chroma-service"; port := 8000;
       timeout := 10000000; retry_count := 3; circuit_breaker_threshold := 5 |}
    (register_service
       {| name := "model"; host := "deepseek-model-service"; port := 8080;
          timeout := 30000000; retry_count := 3; circuit_breaker_threshold := 5 |}
       self).

(** Lines 116-147, the undecorated body.  [make_request] is the HTTP
    exchange with the downstream service (lines 124-139): it raises what
    [session.request], [raise_for_status] or [response.json] raise. *)
Definition call_service_body {R} (service_name : string)
    (make_request : operation R) (self : ServiceIntegration) (w : World)
  : outcome R * ServiceIntegration * World :=
  match services self !! service_name with
  | None => (Raised (ValueError ("Unknown service: " ++ service_name)%string), self, w)
  | Some service_config =>
      match circuit_breakers self !! service_name with
      | None => (Raised (KeyError service_name), self, w)
      | Some circuit_breaker =>
          let '(r, circuit_breaker', w') := call circuit_breaker make_request w in
          (r,
           {| services := services self;
              circuit_breakers :=
                <[service_name := circuit_breaker']> (circuit_breakers self) |},
           w')
      end
  end.

(** The exception classes listed in the decorator (line 104). *)
Definition retried (e : exn) : bool :=
  match e with
  | ClientError _ | TimeoutError => true
  | _ => false
  end.

(** [backoff.on_exception(backoff.expo, classes, max_tries)], as the backoff
    library defines it: the target is called; an exception that is an
    instance of one of [classes] is caught, and unless this was call number
    [max_tries] the decorator sleeps for the next value of the wait
    generator (1s, 2s, 4s, ... for [expo], passed through the random
    [jitter]) and calls again; any other exception propagates at once. *)
Fixpoint on_exception {S R} (fuel : nat) (classes : exn -> bool) (max_tries : Z)
    (jitter : Z -> Z) (target : S -> World -> outcome R * S * World)
    (tries : Z) (s : S) (w : World) : option (outcome R * S * World) :=
  match fuel with
  | O => None
  | Datatypes.S fuel' =>
      let tries := tries + 1 in
      let '(r, s1, w1) := target s w in
      match r with
      | Returned ret => Some (Returned ret, s1, w1)
      | Raised e =>
          if classes e then
            if tries =? max_tries then Some (Raised e, s1, w1)
            else on_exception fuel' classes max_tries jitter target tries s1
                   (sleep (jitter (1000000 * 2 ^ (tries - 1))) w1)
          else Some (Raised e, s1, w1)
      end
  end.

(** [ServiceIntegration.call_service], decorator included (lines 102-147). *)
Definition call_service {R} (jitter : Z -> Z) (service_name : string)
    (make_request : operation R) (self : ServiceIntegration) (w : World)
  : option (outcome R * ServiceIntegration * World) :=
  on_exception 3 retried 3 jitter (call_service_body service_name make_request)
    0 self w.

End Gateway.

(** ** security-config.py *)

Module Security.

(** [SecurityConfig] *)
Definition RATE_LIMIT_MINUTE : Z := 100.
Definition RATE_LIMIT_HOUR : Z := 1000.

Inductive Role : Type := ADMIN | USER | SERVICE.

(** [Role(value)]: lookup of an enum member by value. *)
Definition Role_of (value : option string) : outcome Role :=
  match value with
  | Some s =>
      if String.eqb s "admin" then Returned ADMIN
      else if String.eqb s "user" then Returned USER
      else if String.eqb s "service" then Returned SERVICE
      else Raised (ValueError ("'" ++ s ++ "' is not a valid Role")%string)
  | None => Raised (ValueError "None is not a valid Role")
  end.

Record UserData : Type := mkUser {
  username : string;
  role : Role;
  permissions : list string;
  rate_limit : option Z
}.

(** [{"count": ..., "reset": ...}] *)
Record Window : Type := mkWindow { count : Z; reset : Z }.

(** [{"minute": ..., "hour": ...}] *)
Record Limiter : Type := mkLimiter { minute : Window; hour : Window }.

Record SecurityManager : Type := mkSM {
  _token_blacklist : gset string;
  _rate_limiters : gmap string Limiter
}.

(** [SecurityManager.__init__] *)
Definition new : SecurityManager :=
  {| _token_blacklist := ∅; _rate_limiters := ∅ |}.

(** [revoke_token] *)
Definition revoke_token (token : string) (self : SecurityManager) : SecurityManager :=
  {| _token_blacklist := {[token]} ∪ _token_blacklist self;
     _rate_limiters := _rate_limiters self |}.

(** The claims [verify_token] reads from a decoded token. *)
Record Payload : Type := mkPayload {
  sub : option string;
  role_claim : option string;
  permissions_claim : option (list string)
}.

(** What a caller may pass where a token is expected: Python does not check
    the annotation [token: str]. *)
Inductive pyval : Type :=
| PStr (s : string)
| PList (l : list string).

(** [s.replace("Bearer ", "")]: every occurrence is removed, scanning from
    the left; [skip] counts the characters of a match still to drop. *)
Fixpoint strip_bearer (skip : nat) (s : string) : string :=
  match s with
  | EmptyString => EmptyString
  | String c s' =>
      match skip with
      | S k => strip_bearer k s'
      | O =>
          if String.prefix "Bearer " s then strip_bearer 6 s'
          else String c (strip_bearer 0 s')
      end
  end.

Record Request : Type := mkRequest { headers : gmap string string }.

Record Response : Type := mkResponse {
  response_headers : gmap string string;
  body : string
}.

Definition set_window_minute (m : Window) (l : Limiter) : Limiter :=
  {| minute := m; hour := hour l |}.
Definition set_window_hour (h : Window) (l : Limiter) : Limiter :=
  {| minute := minute l; hour := h |}.
Definition bump (x : Window) : Window :=
  {| count := count x + 1; reset := reset x |}.

Definition store (user : string) (l : Limiter) (self : SecurityManager)
  : SecurityManager :=
  {| _token_blacklist := _token_blacklist self;
     _rate_limiters := <[user := l]> (_rate_limiters self) |}.

(** [SecurityManager.rate_limit_check].  [t_minute] and [t_hour] are the
    readings of [datetime.utcnow()] that stamp a new entry (lines 125-126,
    taken only when the principal has none); [now] is the reading of line
    130.  [(a - b).total_seconds() > 60] is a comparison of microseconds. *)
Definition rate_limit_check (self : SecurityManager) (user_data : UserData)
    (t_minute t_hour now : Z) : bool * SecurityManager :=
  let limiter :=
    match _rate_limiters self !! username user_data with
    | Some l => l
    | None => {| minute := {| count := 0; reset := t_minute |};
                 hour := {| count := 0; reset := t_hour |} |}
    end in
  let limiter :=
    if now - reset (minute limiter) >? 60 * 1000000
    then set_window_minute {| count := 0; reset := now |} limiter
    else limiter in
  let limiter :=
    if now - reset (hour limiter) >? 3600 * 1000000
    then set_window_hour {| count := 0; reset := now |} limiter
    else limiter in
  if (count (minute limiter) >=? RATE_LIMIT_MINUTE)
     || (count (hour limiter) >=? RATE_LIMIT_HOUR)
  then (false, store (username user_data) limiter self)
  else (true,
        store (username user_data)
          (set_window_hour (bump (hour limiter))
             (set_window_minute (bump (minute limiter)) limiter))
          self).

Section WithTokenLibrary.

(** [jwt.decode(token, SECRET_KEY, algorithms=[ALGORITHM])]; [None] stands
    for a raised [JWTError]. *)
Variable jwt_decode : string -> option Payload.

(** [SecurityManager.verify_token].  Testing [token in self._token_blacklist]
    hashes the token first; a list has no hash. *)
Definition verify_token (self : SecurityManager) (token : pyval)
  : outcome UserData :=
  match token with
  | PList _ => Raised (TypeError "unhashable type: 'list'")
  | PStr token =>
      if decide (token ∈ _token_blacklist self)
      then Raised (HTTPException 401 "Token has been revoked")
      else
        match jwt_decode token with
        | None => Raised (HTTPException 401 "Could not validate credentials")
        | Some payload =>
            match sub payload with
            | None => Raised (HTTPException 401 "Could not validate credentials")
            | Some username =>
                match Role_of (role_claim payload) with
                | Raised e => Raised e
                | Returned role =>
                    Returned
                      {| username := username; role := role;
                         permissions :=
                           match permissions_claim payload with
                           | Some l => l
                           | None => []
                           end;
                         rate_limit := None |}
                end
            end
        end
  end.

(** [SecurityManager.check_permission], for a user whose permissions are a
    list of strings as [UserData] declares them; [check_permission_raw]
    below takes the permissions claim of a token as it comes. *)
Definition check_permission (self : SecurityManager) (token : pyval)
    (required_permissions : list string) : outcome bool :=
  match verify_token self token with
  | Raised e => Raised e
  | Returned user_data =>
      match role user_data with
      | ADMIN => Returned true
      | _ =>
          Returned
            (forallb (fun perm => bool_decide (perm ∈ permissions user_data))
               required_permissions)
      end
  end.

(** [require_permissions(permissions)], applied to the current user: the
    inner [permission_checker] (lines 213-224). *)
Definition require_permissions (self : SecurityManager)
    (permissions_ : list string) (user : UserData) : outcome bool :=
  match check_permission self (PList (permissions user)) permissions_ with
  | Raised e => Raised e
  | Returned false => Raised (HTTPException 403 "Insufficient permissions")
  | Returned true => Returned true
  end.

(** [SecurityMiddleware.__call__]; the final [except ...: raise] logs and
    re-raises unchanged. *)
Definition middleware (self : SecurityManager) (request : Request)
    (call_next : operation Response) (t_minute t_hour now : Z) (w : World)
  : outcome Response * SecurityManager * World :=
  let token :=
    strip_bearer 0
      (match headers request !! "Authorization" with
       | Some v => v
       | None => ""
       end) in
  if String.eqb token "" then
    let '(r, w1) := await call_next w in (r, self, w1)
  else
    match verify_token self (PStr token) with
    | Raised e => (Raised e, self, w)
    | Returned user_data =>
        let '(ok, self1) := rate_limit_check self user_data t_minute t_hour now in
        if negb ok
        then (Raised (HTTPException 429 "Rate limit exceeded"), self1, w)
        else
          let '(r, w1) := await call_next w in
          match r with
          | Raised e => (Raised e, self1, w1)
          | Returned response =>
              match _rate_limiters self1 !! username user_data with
              | None => (Raised (KeyError (username user_data)), self1, w1)
              | Some l =>
                  (Returned
                     {| response_headers :=
                          <["X-Rate-Limit-Remaining" :=
                              pretty (RATE_LIMIT_MINUTE - count (minute l))]>
                            (response_headers response);
                        body := body response |},
                   self1, w1)
              end
          end
    end.

End WithTokenLibrary.

(** A window as the check sees it: started afresh when it is older than its
    length (in seconds). *)
Definition refreshed (now length_s : Z) (x : Window) : Window :=
  if now - reset x >? length_s * 1000000 then {| count := 0; reset := now |} else x.

(** The principal's entry, created on first use. *)
Definition entry (self : SecurityManager) (user : string) (t_minute t_hour : Z)
  : Limiter :=
  match _rate_limiters self !! user with
  | Some l => l
  | None => {| minute := {| count := 0; reset := t_minute |};
               hour := {| count := 0; reset := t_hour |} |}
  end.

(** A token library for the examples: one token, issued to an administrator. *)
Definition admin_only_decode (token : string) : option Payload :=
  if String.eqb token "admin-token"
  then Some {| sub := Some "root"; role_claim := Some "admin";
               permissions_claim := Some ["read"; "write"] |}
  else None.

Definition admin_request : Request :=
  {| headers := {[ "Authorization" := "Bearer admin-token" ]} |}.

Definition ok_handler : operation Response :=
  fun _ => (Returned {| response_headers := ∅; body := "ok" |}, 1000).

(** The administrator has used up the minute window that began at 0. *)
Definition admin_exhausted : SecurityManager :=
  {| _token_blacklist := ∅;
     _rate_limiters :=
       {[ "root" := {| minute := {| count := 100; reset := 0 |};
                       hour := {| count := 100; reset := 0 |} |} ]} |}.

(** [ACCESS_TOKEN_EXPIRE_MINUTES = 30], as a duration. *)
Definition ACCESS_TOKEN_EXPIRE : Z := 30 * 60 * 1000000.

(** The values [create_access_token] finds or puts in the claims of a
    token. *)
Inductive claim : Type :=
| CStr (s : string)
| CList (l : list string)
| CTime (t : Z).

(** Lines 53-62 of [create_access_token]: the claims handed to [jwt.encode].
    [expires_delta] is a [timedelta] or [None]; a [timedelta] is true unless
    it is zero.  [now] is the reading of [datetime.utcnow()]. *)
Definition access_token_claims (data : gmap string claim) (expires_delta : option Z)
    (now : Z) : gmap string claim :=
  let expire :=
    match expires_delta with
    | Some delta => if delta =? 0 then now + ACCESS_TOKEN_EXPIRE else now + delta
    | None => now + ACCESS_TOKEN_EXPIRE
    end in
  <["exp" := CTime expire]> data.

Section WithTokenEncoder.

(** [jwt.encode(claims, SECRET_KEY, algorithm=ALGORITHM)] *)
Variable jwt_encode : gmap string claim -> string.

(** [SecurityManager.create_access_token] *)
Definition create_access_token (data : gmap string claim) (expires_delta : option Z)
    (now : Z) : string :=
  jwt_encode (access_token_claims data expires_delta now).

End WithTokenEncoder.

(** Successive rate-limit checks of one principal; each element of
    [readings] holds the three clock readings of one check. *)
Fixpoint checks (self : SecurityManager) (user_data : UserData)
    (readings : list (Z * Z * Z)) : list bool * SecurityManager :=
  match readings with
  | [] => ([], self)
  | (t_minute, t_hour, now) :: rest =>
      let '(ok, self1) := rate_limit_check self user_data t_minute t_hour now in
      let '(oks, self2) := checks self1 user_data rest in
      (ok :: oks, self2)
  end.

(** Both counters of an entry lie between 0 and their limits. *)
Definition within_limits (l : Limiter) : Prop :=
  0 <= count (minute l) <= RATE_LIMIT_MINUTE /\
  0 <= count (hour l) <= RATE_LIMIT_HOUR.

(** What is left of a principal's quota in the current windows. *)
Definition quota (l : Limiter) : Z :=
  Z.min (RATE_LIMIT_MINUTE - count (minute l)) (RATE_LIMIT_HOUR - count (hour l)).

(** What [payload.get("permissions", [])] can hand back.  The claim is JSON,
    and nothing checks it against the annotation [list[str]] of [UserData]:
    a list (of which only the strings can equal a permission; for an object,
    its keys), a string, or a value that [in] cannot search (null, a number,
    a boolean), given by the name of its type. *)
Inductive permissions_value : Type :=
| PermList (l : list string)
| PermText (s : string)
| PermNotIterable (type_name : string).

(** [p in s] for two strings: [p] occurs in [s]. *)
Fixpoint contains (p s : string) : bool :=
  String.prefix p s ||
  match s with
  | EmptyString => false
  | String _ s' => contains p s'
  end.

(** [perm in user_data.permissions] *)
Definition has_permission (perm : string) (held : permissions_value) : outcome bool :=
  match held with
  | PermList l => Returned (bool_decide (perm ∈ l))
  | PermText s => Returned (contains perm s)
  | PermNotIterable ty =>
      Raised (TypeError ("argument of type '" ++ ty ++ "' is not iterable")%string)
  end.

(** Line 119: [all(perm in user_data.permissions for perm in
    required_permissions)], which stops at the first False and evaluates
    nothing for an empty requirement. *)
Fixpoint all_permissions (held : permissions_value) (required_permissions : list string)
  : outcome bool :=
  match required_permissions with
  | [] => Returned true
  | perm :: rest =>
      match has_permission perm held with
      | Raised e => Raised e
      | Returned false => Returned false
      | Returned true => all_permissions held rest
      end
  end.

(** The decoded claims and the user built from them, with the permissions
    claim as it comes. *)
Record RawPayload : Type := mkRawPayload {
  raw_sub : option string;
  raw_role_claim : option string;
  raw_permissions_claim : option permissions_value
}.

Record RawUser : Type := mkRawUser {
  raw_username : string;
  raw_role : Role;
  raw_permissions : permissions_value
}.

(** A payload whose permissions claim is a list, as a raw payload. *)
Definition raw_of_payload (payload : Payload) : RawPayload :=
  {| raw_sub := sub payload; raw_role_claim := role_claim payload;
     raw_permissions_claim := PermList <$> permissions_claim payload |}.

Section WithRawTokenLibrary.

(** [jwt.decode], with the permissions claim of whatever JSON type the token
    holds; [None] stands for a raised [JWTError]. *)
Variable jwt_decode_raw : string -> option RawPayload.

(** [SecurityManager.verify_token] on a string token (lines 73-106). *)
Definition verify_token_raw (self : SecurityManager) (token : string)
  : outcome RawUser :=
  if decide (token ∈ _token_blacklist self)
  then Raised (HTTPException 401 "Token has been revoked")
  else
    match jwt_decode_raw token with
    | None => Raised (HTTPException 401 "Could not validate credentials")
    | Some payload =>
        match raw_sub payload with
        | None => Raised (HTTPException 401 "Could not validate credentials")
        | Some username =>
            match Role_of (raw_role_claim payload) with
            | Raised e => Raised e
            | Returned role =>
                Returned
                  {| raw_username := username; raw_role := role;
                     raw_permissions :=
                       match raw_permissions_claim payload with
                       | Some v => v
                       | None => PermList []
                       end |}
            end
        end
    end.

(** [SecurityManager.check_permission] on a string token (lines 114-119). *)
Definition check_permission_raw (self : SecurityManager) (token : string)
    (required_permissions : list string) : outcome bool :=
  match verify_token_raw self token with
  | Raised e => Raised e
  | Returned user_data =>
      match raw_role user_data with
      | ADMIN => Returned true
      | _ => all_permissions (raw_permissions user_data) required_permissions
      end
  end.

End WithRawTokenLibrary.

End Security.

(** ** api/document_processor.py: splitting a document into chunks *)

Module Chunker.

(** The two settings of [DocumentProcessor] that the splitting reads. *)
Record DocumentProcessor : Type := mkDP {
  chunk_size : Z;
  chunk_overlap : Z
}.

Section WithWordCount.

(** [len(sentence.split())], the number of words of a sentence. *)
Variable words : string -> nat.

Definition size_of (chunk : list string) : Z :=
  fold_right (fun s acc => Z.of_nat (words s) + acc) 0 chunk.

(** The loop variables [chunks], [current_chunk], [current_size] of
    [_create_chunks]; a chunk is kept as the list of its sentences until it is
    joined. *)
Definition loop_state : Type := list (list string) * list string * Z.

(** Lines 94-107: the body of [for sentence in sentences]. *)
Definition step (self : DocumentProcessor) (st : loop_state) (sentence : string)
  : loop_state :=
  let '(chunks, current_chunk, current_size) := st in
  let sentence_size := Z.of_nat (words sentence) in
  if current_size + sentence_size >? chunk_size self then
    let chunks :=
      match current_chunk with
      | [] => chunks
      | _ => chunks ++ [current_chunk]
      end in
    let overlap_start :=
      Z.max 0 (Z.of_nat (length current_chunk) - chunk_overlap self) in
    let current_chunk := drop (Z.to_nat overlap_start) current_chunk ++ [sentence] in
    (chunks, current_chunk, size_of current_chunk)
  else (chunks, current_chunk ++ [sentence], current_size + sentence_size).

(** Lines 90-111, before the sentences of a chunk are joined: [sentences] is
    what [nltk.sent_tokenize(content)] returned. *)
Definition chunk_lists (self : DocumentProcessor) (sentences : list string)
  : list (list string) :=
  let '(chunks, current_chunk, _) := fold_left (step self) sentences ([], [], 0) in
  match current_chunk with
  | [] => chunks
  | _ => chunks ++ [current_chunk]
  end.

(** [DocumentProcessor._create_chunks]: each chunk is [' '.join(...)] of its
    sentences. *)
Definition _create_chunks (self : DocumentProcessor) (sentences : list string)
  : list string :=
  map (String.concat " ") (chunk_lists self sentences).

End WithWordCount.

End Chunker.

(** * Properties *)

Import CB.

(** ** Awaiting the wrapped operation *)

Section AwaitFacts.
Context {R : Type} (func : operation R).

Lemma await_invoked w r w' :
  await func w = (r, w') -> invoked w' = S (invoked w).
Proof.
  unfold await. destruct (func (invoked w)) as [r0 d].
  intros H; inversion H; reflexivity.
Qed.

Lemma await_slept w r w' :
  await func w = (r, w') -> slept w' = slept w.
Proof.
  unfold await. destruct (func (invoked w)) as [r0 d].
  intros H; inversion H; reflexivity.
Qed.

Lemma await_fst w : fst (await func w) = fst (func (invoked w)).
Proof. unfold await. destruct (func (invoked w)); reflexivity. Qed.

End AwaitFacts.

(** ** Circuit breaker *)

Section BreakerFacts.
Context {R : Type}.
Implicit Types (self : CircuitBreaker) (func : operation R) (w : World).

Lemma on_entry_closed self w : state self = Closed -> on_entry self w = Returned self.
Proof. unfold on_entry; intros ->; reflexivity. Qed.

Lemma on_entry_half_open self w : state self = HalfOpen -> on_entry self w = Returned self.
Proof. unfold on_entry; intros ->; reflexivity. Qed.

(** Line 30 does not get past [time.time()]. *)
Lemma on_entry_open self w : state self = Open -> on_entry self w = Raised name_error.
Proof. unfold on_entry; intros ->; reflexivity. Qed.

Lemma on_entry_returns self w self' :
  on_entry self w = Returned self' -> self' = self /\ state self <> Open.
Proof.
  unfold on_entry. destruct (state self) eqn:Hs; cbn; intros H; try discriminate;
    injection H as <-; split; congruence.
Qed.

(** Neither does line 43: the failure is counted and nothing else is
    written. *)
Lemma on_failure_shipped self e w :
  on_failure self e w
  = (name_error,
     {| threshold := threshold self; reset_timeout := reset_timeout self;
        failures := failures self + 1; last_failure_time := last_failure_time self;
        state := state self |}).
Proof. reflexivity. Qed.

(** A call whose operation is invoked. *)
Lemma complete_run self func w :
  complete self func w
  = match fst (func (invoked w)) with
    | Returned result => (Returned result, on_success self, snd (await func w))
    | Raised e =>
        (Raised name_error,
         {| threshold := threshold self; reset_timeout := reset_timeout self;
            failures := failures self + 1;
            last_failure_time := last_failure_time self; state := state self |},
         snd (await func w))
    end.
Proof.
  unfold complete, await. destruct (func (invoked w)) as [[result|e] d]; reflexivity.
Qed.

(** Every transition keeps the configuration. *)
Lemma reachable_config th rt self :
  reachable th rt self -> threshold self = th /\ reset_timeout self = rt.
Proof.
  induction 1 as [|self w self' _ [IH1 IH2] Hadm|self _ [IH1 IH2]|self e w _ [IH1 IH2]].
  - split; reflexivity.
  - apply on_entry_returns in Hadm. destruct Hadm as [-> _]. split; assumption.
  - unfold on_success. destruct (state self); split; assumption.
  - rewrite on_failure_shipped. split; assumption.
Qed.

End BreakerFacts.

(** The scenario of the specification, on the module as it is: threshold 3,
    reset timeout 60s.  Three failing calls are all passed to the operation,
    each ends in NameError, and the breaker counts 3 failures but is still
    Closed with its timestamp at 0; a fourth call 10s later is passed to the
    operation as well. *)
Example breaker_scenario :
  let failing : operation unit := fun _ => (Raised TimeoutError, 1000000) in
  let '(b3, w3) := calls 3 (init 3 60000000) failing world0 in
  state b3 = Closed /\ failures b3 = 3 /\ last_failure_time b3 = 0 /\
  invoked w3 = 3%nat /\
  (let w4 := {| clock := clock w3 + 10000000; invoked := invoked w3;
                slept := slept w3; handled := handled w3 |} in
   let '(r, _, w4') := call b3 failing w4 in
   r = Raised name_error /\ invoked w4' = 4%nat).
Proof. vm_compute. repeat split; reflexivity. Qed.

(** C1 (the code departs from it).  A call on an Open breaker does not reach
    the comparison with the reset timeout: line 30 evaluates [time.time()],
    and [time] is not imported.  Whatever the time elapsed since the last
    failure, the call raises NameError, not the breaker-open error of line
    33.  The wrapped operation is not invoked and the breaker is left as it
    was, as the claim says. *)
Theorem call_open_raises_name_error {R} (self : CircuitBreaker)
    (func : operation R) (w : World) :
  call (set_state Open self) func w
  = (Raised (NameError "name 'time' is not defined"), set_state Open self, w).
Proof. reflexivity. Qed.

(** C2 as stated fails: a success in Closed does not touch the failure
    count.  A Closed breaker that counts two failures still counts two after
    a successful call; and a new breaker that saw two failing calls and then
    a successful one counts 2, not 0. *)
Lemma closed_success_reset_refuted :
  ~ (forall (self : CircuitBreaker) (func : operation unit) (w : World) r self' w',
        state self = Closed ->
        call self func w = (Returned r, self', w') ->
        failures self' = 0)
  /\ (let script : operation unit :=
        fun i => if Nat.eqb i 2 then (Returned tt, 1000) else (Raised TimeoutError, 1000) in
      let '(b2, w2) := calls 2 (init 3 60000000) script world0 in
      let '(r3, b3, _) := call b2 script w2 in
      state b2 = Closed /\ failures b2 = 2 /\ r3 = Returned tt /\ failures b3 = 2).
Proof.
  split.
  - intros H.
    specialize (H {| threshold := 3; reset_timeout := 60000000; failures := 2;
                     last_failure_time := 0; state := Closed |}
                  (fun _ => (Returned tt, 1000)) world0 tt _ _ eq_refl eq_refl).
    discriminate H.
  - vm_compute. repeat split; reflexivity.
Qed.

(** C2, amended.  When the wrapped operation returns, the breaker resets
    its failure count to 0 only if it is HalfOpen at that moment, and then
    becomes Closed; in every other state the success leaves the breaker, its
    failure count included, exactly as it was.  In particular a call on a
    Closed breaker whose operation returns hands back the result and changes
    nothing, and a call on a Closed breaker whose operation raises adds one
    to the count, whatever came before it. *)
Theorem success_resets_only_in_half_open {R} (self : CircuitBreaker)
    (func : operation R) (w : World) :
  (forall result self' w',
     complete self func w = (Returned result, self', w') ->
     match state self with
     | HalfOpen =>
         self' = {| threshold := threshold self; reset_timeout := reset_timeout self;
                    failures := 0; last_failure_time := last_failure_time self;
                    state := Closed |}
     | _ => self' = self
     end) /\
  (state self = Closed ->
   match await func w with
   | (Returned result, w1) => call self func w = (Returned result, self, w1)
   | (Raised _, w1) =>
       exists e' self',
         call self func w = (Raised e', self', w1) /\
         failures self' = failures self + 1
   end).
Proof.
  split.
  - intros result self' w' Hrun. rewrite complete_run in Hrun.
    destruct (fst (func (invoked w))); [|discriminate].
    injection Hrun as _ <- _. unfold on_success.
    destruct (state self); reflexivity.
  - intros Hs. unfold call. rewrite (on_entry_closed _ _ Hs). unfold complete.
    destruct (await func w) as [[result|e] w1].
    + unfold on_success. rewrite Hs. reflexivity.
    + rewrite on_failure_shipped. eexists _, _. split; reflexivity.
Qed.

Lemma success_resets_only_in_half_open_witness :
  let self := {| threshold := 3; reset_timeout := 60000000; failures := 2;
                 last_failure_time := 0; state := Closed |} in
  call self (fun _ => (Returned 7, 1000)) world0
  = (Returned 7, self,
     {| clock := 1000; invoked := 1%nat; slept := []; handled := [] |}).
Proof.
  cbv zeta.
  exact (proj2 (success_resets_only_in_half_open
                  {| threshold := 3; reset_timeout := 60000000; failures := 2;
                     last_failure_time := 0; state := Closed |}
                  (fun _ => (Returned 7, 1000)) world0) eq_refl).
Defined.

(** C3 (the code departs from it).  The transitions the claim describes are
    written in the code, but two of the three pass through [time.time()]
    and are lost to the NameError.  A call on an Open breaker raises
    NameError, however long after the last failure, and leaves the breaker
    Open: it never becomes HalfOpen and the operation is not run.  A call in
    HalfOpen whose operation raises counts the failure and raises NameError,
    leaving the breaker HalfOpen with its old timestamp.  Only the third
    transition works: a call in HalfOpen whose operation returns leaves the
    breaker Closed with failure count 0. *)
Theorem half_open_transitions_lost {R} (self : CircuitBreaker)
    (func : operation R) (w : World) :
  call (set_state Open self) func w
  = (Raised name_error, set_state Open self, w) /\
  match await func w with
  | (Returned result, w1) =>
      call (set_state HalfOpen self) func w
      = (Returned result,
         {| threshold := threshold self; reset_timeout := reset_timeout self;
            failures := 0; last_failure_time := last_failure_time self;
            state := Closed |},
         w1)
  | (Raised _, w1) =>
      call (set_state HalfOpen self) func w
      = (Raised name_error,
         {| threshold := threshold self; reset_timeout := reset_timeout self;
            failures := failures self + 1;
            last_failure_time := last_failure_time self; state := HalfOpen |},
         w1)
  end.
Proof.
  split; [reflexivity|].
  unfold call, complete. cbn [on_entry set_state state].
  destruct (await func w) as [[result|e] w1]; reflexivity.
Qed.

(** ** Retry decorator *)

Import Retry.

Section RetryFacts.
Context {R : Type}.
Variables (max_retries retry_delay : Z) (func : operation R).

Local Abbreviation loop fuel := (wrapper_loop fuel max_retries retry_delay func).

Lemma run_handler_invoked e w : invoked (run_handler e w) = invoked w.
Proof. unfold run_handler. destruct (_ !! _); reflexivity. Qed.

Lemma run_handler_slept e w : slept (run_handler e w) = slept w.
Proof. unfold run_handler. destruct (_ !! _); reflexivity. Qed.

(** The loop condition is false: line 76. *)
Lemma loop_done fuel retries last_error w :
  max_retries <= retries -> loop fuel retries last_error w = Some (raise_ last_error, w).
Proof.
  intros H. destruct fuel; cbn;
    (destruct (Z.ltb_spec retries max_retries); [lia | reflexivity]).
Qed.

(** One iteration in which the operation returns: line 42. *)
Lemma loop_returns fuel retries last_error w result w1 :
  retries < max_retries -> await func w = (Returned result, w1) ->
  loop (S fuel) retries last_error w = Some (Returned result, w1).
Proof.
  intros H Hw. cbn. destruct (Z.ltb_spec retries max_retries); [|lia].
  rewrite Hw. reflexivity.
Qed.

Lemma loop_raises fuel retries last_error w e w1 :
  retries < max_retries -> await func w = (Raised e, w1) ->
  loop (S fuel) retries last_error w
  = loop fuel (retries + 1) (Some e) (after_failure max_retries retry_delay retries e w1).
Proof.
  intros H Hw. cbn. destruct (Z.ltb_spec retries max_retries); [|lia].
  rewrite Hw. unfold after_failure. rewrite Z.add_simpl_r. reflexivity.
Qed.

Lemma backoffs_snoc d k n :
  backoffs d k (S n) = backoffs d k n ++ [d * 2 ^ (k + Z.of_nat n)].
Proof. unfold backoffs. rewrite seq_S, map_app. reflexivity. Qed.

Lemma backoffs_cons d k n :
  backoffs d k (S n) = d * 2 ^ k :: backoffs d (k + 1) n.
Proof.
  unfold backoffs. cbn [seq map]. rewrite Z.add_0_r. f_equal.
  rewrite <- seq_shift, map_map. apply map_ext. intros i.
  do 2 f_equal. lia.
Qed.

(** [n] failures in a row, each of them followed by its backoff sleep. *)
Lemma loop_fails n : forall fuel retries last_error w,
  0 <= retries ->
  retries + Z.of_nat n < max_retries ->
  (forall i, (i < n)%nat -> is_raised (fst (func (invoked w + i)%nat)) = true) ->
  exists last_error' w',
    loop (n + fuel) retries last_error w
    = loop fuel (retries + Z.of_nat n) last_error' w' /\
    invoked w' = (invoked w + n)%nat /\
    slept w' = slept w ++ backoffs retry_delay retries n.
Proof.
  induction n as [|n IH]; intros fuel retries last_error w Hr Hlt Hfail.
  - exists last_error, w. cbn [Nat.add]. rewrite Z.add_0_r, Nat.add_0_r.
    unfold backoffs; cbn. rewrite app_nil_r. repeat split; reflexivity.
  - destruct (await func w) as [r w1] eqn:Hw.
    assert (Hr1 : is_raised r = true).
    { specialize (Hfail 0%nat ltac:(lia)). rewrite Nat.add_0_r in Hfail.
      rewrite <- await_fst, Hw in Hfail. exact Hfail. }
    destruct r as [?|e]; [discriminate|].
    pose proof (await_invoked _ _ _ _ Hw) as Hi.
    pose proof (await_slept _ _ _ _ Hw) as Hsl.
    destruct (IH fuel (retries + 1) (Some e) (after_failure max_retries retry_delay retries e w1))
      as (le' & w' & Heq & Hinv & Hslept); [lia | lia | |].
    { intros i Hlti. unfold after_failure.
      destruct (_ <? _); cbn [sleep invoked]; rewrite run_handler_invoked, Hi;
        replace (S (invoked w) + i)%nat with (invoked w + S i)%nat by lia;
        apply Hfail; lia. }
    assert (Hlt' : retries < max_retries) by lia.
    exists le', w'. cbn [Nat.add]. rewrite (loop_raises _ _ last_error _ _ _ Hlt' Hw), Heq.
    split; [f_equal; lia|]. split.
    + rewrite Hinv. unfold after_failure.
      destruct (_ <? _); cbn [sleep invoked]; rewrite run_handler_invoked, Hi; lia.
    + rewrite Hslept. unfold after_failure.
      destruct (Z.ltb_spec (retries + 1) max_retries); [|lia].
      cbn [sleep slept]. rewrite run_handler_slept, Hsl, backoffs_cons, <- app_assoc.
      reflexivity.
Qed.

Lemma total_app l1 l2 : total (l1 ++ l2) = total l1 + total l2.
Proof. unfold total. induction l1 as [|x l1 IH]; cbn; [reflexivity | rewrite IH; lia]. Qed.

(** 2^0 + ... + 2^(n-1) = 2^n - 1, times the base delay. *)
Lemma total_backoffs d n : total (backoffs d 0 n) = d * (2 ^ Z.of_nat n - 1).
Proof.
  induction n as [|n IH].
  - cbn. lia.
  - rewrite backoffs_snoc, total_app, IH. unfold total; cbn [fold_right].
    rewrite Nat2Z.inj_succ, Z.pow_succ_r by lia.
    rewrite Z.add_0_l, Z.add_0_r. ring.
Qed.

Lemma backoffs_lookup d k n (i : nat) :
  (i < n)%nat -> backoffs d k n !! i = Some (d * 2 ^ (k + Z.of_nat i)).
Proof.
  intros H. unfold backoffs. rewrite list_lookup_fmap.
  rewrite lookup_seq_lt by exact H. reflexivity.
Qed.

End RetryFacts.

Section RetryResults.
Context {R : Type}.
Variables (max_retries retry_delay : Z) (func : operation R).

Local Abbreviation loop fuel := (wrapper_loop fuel max_retries retry_delay func).

(** With one unit of fuel per remaining attempt the loop ends, and what it
    hands back is either the re-raised [last_error] (no iteration ran) or
    the outcome of the last invocation it made. *)
Lemma loop_result fuel : forall retries last_error w,
  max_retries - retries <= Z.of_nat fuel ->
  exists o w',
    loop fuel retries last_error w = Some (o, w') /\
    ((max_retries <= retries /\ o = raise_ last_error /\ w' = w) \/
     (retries < max_retries /\ (invoked w < invoked w')%nat /\
      o = fst (func (Nat.pred (invoked w'))))).
Proof.
  induction fuel as [|fuel IH]; intros retries last_error w Hfuel.
  - exists (raise_ last_error), w. rewrite loop_done by lia.
    split; [reflexivity|]. left. repeat split. lia.
  - destruct (Z.le_gt_cases max_retries retries) as [Hge|Hlt].
    { exists (raise_ last_error), w. rewrite loop_done by lia.
      split; [reflexivity|]. left. repeat split. lia. }
    destruct (await func w) as [r w1] eqn:Hw.
    pose proof (await_invoked _ _ _ _ Hw) as Hi.
    pose proof (await_fst func w) as Hf. rewrite Hw in Hf. cbn [fst] in Hf.
    destruct r as [result|e].
    + exists (Returned result), w1.
      rewrite (loop_returns _ _ _ _ _ last_error _ _ _ Hlt Hw).
      split; [reflexivity|]. right. rewrite Hi. cbn [Nat.pred].
      repeat split; [lia|lia|assumption].
    + rewrite (loop_raises _ _ _ _ _ last_error _ _ _ Hlt Hw).
      assert (Hi3 : invoked (after_failure max_retries retry_delay retries e w1)
                    = S (invoked w)).
      { unfold after_failure. destruct (_ <? _); cbn [sleep invoked];
          rewrite run_handler_invoked; exact Hi. }
      destruct (IH (retries + 1) (Some e)
                  (after_failure max_retries retry_delay retries e w1))
        as (o & w' & Heq & Hcase); [lia|].
      exists o, w'. split; [exact Heq|]. right. split; [lia|].
      destruct Hcase as [(Hge & Ho & Hw')|(Hlt' & Hinv & Ho)].
      * subst w'. rewrite Hi3. cbn [Nat.pred]. split; [lia|].
        rewrite Ho. cbn [raise_]. exact Hf.
      * rewrite Hi3 in Hinv. split; [lia | exact Ho].
Qed.

(** The decorator's fuel is enough: the wrapper always finishes. *)
Lemma wrapper_total w : exists r, wrapper max_retries retry_delay func w = Some r.
Proof.
  unfold wrapper.
  destruct (loop_result (Z.to_nat max_retries) 0 None w) as (o & w' & H & _); [lia|].
  exists (o, w'). exact H.
Qed.

End RetryResults.

(** Counting invocations and requested sleeps: an operation that fails on
    its first N-1 invocations and returns on the N-th, and one that fails
    every time. *)
Lemma retry_attempts_and_sleeps {R} (max_retries retry_delay : Z)
    (func : operation R) (w : World) :
  1 <= max_retries ->
  (forall (N : nat) (result : R),
     (1 <= N)%nat -> Z.of_nat N <= max_retries ->
     (forall i, (i < N - 1)%nat -> is_raised (fst (func (invoked w + i)%nat)) = true) ->
     fst (func (invoked w + (N - 1))%nat) = Returned result ->
     exists w',
       wrapper max_retries retry_delay func w = Some (Returned result, w') /\
       invoked w' = (invoked w + N)%nat /\
       slept w' = slept w ++ backoffs retry_delay 0 (N - 1)) /\
  ((forall i, is_raised (fst (func i)) = true) ->
     let n := Z.to_nat max_retries in
     exists e w',
       wrapper max_retries retry_delay func w = Some (Raised e, w') /\
       fst (func (invoked w + (n - 1))%nat) = Raised e /\
       invoked w' = (invoked w + n)%nat /\
       slept w' = slept w ++ backoffs retry_delay 0 (n - 1) /\
       (forall k : nat, (1 <= k < n)%nat ->
          backoffs retry_delay 0 (n - 1) !! (k - 1)%nat
          = Some (retry_delay * 2 ^ (Z.of_nat k - 1))) /\
       total (backoffs retry_delay 0 (n - 1))
       = retry_delay * (2 ^ (max_retries - 1) - 1)).
Proof.
  intros Hmax. split.
  - intros N result HN HNmax Hfail Hok.
    destruct (loop_fails max_retries retry_delay func (N - 1)
                (S (Z.to_nat max_retries - N)) 0 None w)
      as (le' & w1 & Heq & Hinv & Hslept); [lia | lia | exact Hfail |].
    destruct (await func w1) as [r w2] eqn:Hw.
    pose proof (await_fst func w1) as Hf. rewrite Hw, Hinv, Hok in Hf. cbn [fst] in Hf.
    subst r. exists w2. unfold wrapper.
    replace (Z.to_nat max_retries) with (N - 1 + S (Z.to_nat max_retries - N))%nat by lia.
    rewrite Heq.
    assert (Hlt : 0 + Z.of_nat (N - 1) < max_retries) by lia.
    rewrite (loop_returns _ _ _ _ _ le' _ _ _ Hlt Hw).
    split; [reflexivity|]. split.
    + rewrite (await_invoked _ _ _ _ Hw), Hinv. lia.
    + rewrite (await_slept _ _ _ _ Hw). exact Hslept.
  - intros Hfail n. subst n. set (n := Z.to_nat max_retries).
    destruct (loop_fails max_retries retry_delay func (n - 1) 1 0 None w)
      as (le' & w1 & Heq & Hinv & Hslept); [lia | lia | intros; apply Hfail |].
    destruct (await func w1) as [r w2] eqn:Hw.
    pose proof (await_fst func w1) as Hf. rewrite Hw, Hinv in Hf. cbn [fst] in Hf.
    assert (Hr : is_raised r = true) by (rewrite Hf; apply Hfail).
    destruct r as [?|e]; [discriminate|].
    exists e, (run_handler e w2). unfold wrapper. fold n.
    replace n with (n - 1 + 1)%nat at 1 by lia.
    rewrite Heq.
    assert (Hlt : 0 + Z.of_nat (n - 1) < max_retries) by lia.
    rewrite (loop_raises _ _ _ _ _ _ _ _ _ Hlt Hw).
    rewrite loop_done by lia. cbn [raise_].
    unfold after_failure.
    destruct (Z.ltb_spec (0 + Z.of_nat (n - 1) + 1) max_retries); [lia|].
    split; [reflexivity|]. split; [symmetry; exact Hf|].
    rewrite run_handler_invoked, run_handler_slept.
    rewrite (await_invoked _ _ _ _ Hw), (await_slept _ _ _ _ Hw), Hinv, Hslept.
    split; [lia|]. split; [reflexivity|]. split.
    + intros k Hk. rewrite backoffs_lookup by lia. do 3 f_equal. lia.
    + rewrite total_backoffs. do 3 f_equal. lia.
Qed.

(** C10. With [max_retries <= 0] the loop body never runs: the operation is
    not invoked (the world is untouched) and the final [raise last_error]
    raises [None], which Python turns into a TypeError; with
    [max_retries >= 1] the wrapper invokes the operation at least once and
    hands back the outcome of its last invocation. *)
Theorem retry_nonpositive_type_error {R} (max_retries retry_delay : Z)
    (func : operation R) (w : World) :
  (max_retries <= 0 ->
     wrapper max_retries retry_delay func w
     = Some (Raised (TypeError "exceptions must derive from BaseException"), w)) /\
  (1 <= max_retries ->
     exists o w',
       wrapper max_retries retry_delay func w = Some (o, w') /\
       (invoked w < invoked w')%nat /\
       o = fst (func (Nat.pred (invoked w')))).
Proof.
  split; intros H.
  - unfold wrapper. rewrite loop_done by lia. reflexivity.
  - unfold wrapper.
    destruct (loop_result max_retries retry_delay func (Z.to_nat max_retries) 0 None w)
      as (o & w' & Heq & [(Hge & _)|(_ & Hinv & Ho)]); [lia | lia |].
    exists o, w'. repeat split; assumption.
Qed.

Lemma retry_nonpositive_type_error_witness :
  wrapper 0 1000000 (fun _ => (Returned 7, 250)) world0
  = Some (Raised (TypeError "exceptions must derive from BaseException"), world0).
Proof.
  exact (proj1 (retry_nonpositive_type_error 0 1000000
                  (fun _ => (Returned 7, 250)) world0)
           (Zle_bool_imp_le 0 0 eq_refl)).
Defined.

(** ** Retrying and the class of the failure *)

Section RetryUniform.
Context {R : Type}.
Variables (max_retries retry_delay : Z) (f g : operation R).
Hypothesis same_failures : forall i, is_raised (fst (f i)) = is_raised (fst (g i)).

(** Two runs of the loop on operations that fail at the same invocations,
    whatever they raise, make the same invocations and the same sleeps. *)
Lemma loop_uniform fuel : forall retries le1 le2 w1 w2,
  invoked w1 = invoked w2 -> slept w1 = slept w2 ->
  match wrapper_loop fuel max_retries retry_delay f retries le1 w1,
        wrapper_loop fuel max_retries retry_delay g retries le2 w2 with
  | Some (o1, w1'), Some (o2, w2') =>
      invoked w1' = invoked w2' /\ slept w1' = slept w2' /\
      is_raised o1 = is_raised o2
  | None, None => True
  | _, _ => False
  end.
Proof.
  induction fuel as [|fuel IH]; intros retries le1 le2 w1 w2 Hi Hs.
  - cbn. destruct (retries <? max_retries); [exact I|].
    destruct le1, le2; cbn; repeat split; assumption.
  - cbn. destruct (retries <? max_retries).
    2:{ destruct le1, le2; cbn; repeat split; assumption. }
    unfold await. rewrite <- Hi. specialize (same_failures (invoked w1)).
    destruct (f (invoked w1)) as [[r1|e1] d1], (g (invoked w1)) as [[r2|e2] d2];
      cbn in same_failures; try discriminate.
    + cbn. repeat split; congruence.
    + apply IH.
      * destruct (_ <? _); cbn [sleep invoked];
          rewrite !run_handler_invoked; cbn; congruence.
      * destruct (_ <? _); cbn [sleep slept];
          rewrite !run_handler_slept; cbn; congruence.
Qed.

End RetryUniform.

(** ** Gateway: the backoff decorator of call_service *)

Import Gateway.

Section GatewayFacts.
Context {S R : Type}.
Variables (classes : exn -> bool) (max_tries : Z) (jitter : Z -> Z)
          (target : S -> World -> outcome R * S * World).

(** An exception outside the listed classes leaves the decorator at once. *)
Lemma on_exception_propagates fuel tries s w e s1 w1 :
  target s w = (Raised e, s1, w1) -> classes e = false ->
  on_exception (Datatypes.S fuel) classes max_tries jitter target tries s w
  = Some (Raised e, s1, w1).
Proof. intros Ht Hc. cbn. rewrite Ht, Hc. reflexivity. Qed.

(** An exception of a listed class is followed by a sleep and another call,
    unless the tries are used up. *)
Lemma on_exception_retries fuel tries s w e s1 w1 :
  target s w = (Raised e, s1, w1) -> classes e = true ->
  tries + 1 <> max_tries ->
  on_exception (Datatypes.S fuel) classes max_tries jitter target tries s w
  = on_exception fuel classes max_tries jitter target (tries + 1) s1
      (sleep (jitter (1000000 * 2 ^ tries)) w1).
Proof.
  intros Ht Hc Hne. cbn. rewrite Ht, Hc.
  destruct (Z.eqb_spec (tries + 1) max_tries); [contradiction|].
  rewrite Z.add_simpl_r. reflexivity.
Qed.

End GatewayFacts.

(** ** Security manager and admission middleware *)

Import Security.

Section RateLimitFacts.
Variables (self : SecurityManager) (user_data : UserData) (t_minute t_hour now : Z).

Lemma rate_limit_check_unfold :
  let old := entry self (username user_data) t_minute t_hour in
  let m := refreshed now 60 (minute old) in
  let h := refreshed now 3600 (hour old) in
  rate_limit_check self user_data t_minute t_hour now
  = if (count m >=? RATE_LIMIT_MINUTE) || (count h >=? RATE_LIMIT_HOUR)
    then (false, store (username user_data) {| minute := m; hour := h |} self)
    else (true, store (username user_data)
                  {| minute := bump m; hour := bump h |} self).
Proof.
  cbv zeta.
  unfold rate_limit_check, entry, refreshed, set_window_minute, set_window_hour, bump.
  destruct (_rate_limiters self !! username user_data) as [[[mc mr] [hc hr]]|];
    cbn [minute hour count reset];
    destruct (_ - _ >? 60 * 1000000); cbn [minute hour count reset];
    destruct (_ - _ >? 3600 * 1000000); cbn [minute hour count reset];
    destruct (_ || _); reflexivity.
Qed.

(** The entry exists once the check has run. *)
Lemma rate_limit_check_entry :
  is_Some (_rate_limiters (snd (rate_limit_check self user_data t_minute t_hour now))
             !! username user_data).
Proof.
  rewrite rate_limit_check_unfold. cbv zeta.
  destruct (_ || _); cbn; rewrite lookup_insert_eq; eauto.
Qed.

End RateLimitFacts.

(** C6. For every principal and every check: with [m] and [h] the minute and
    hour windows after a window older than its length (60s, 3600s) has been
    reset to count 0, the check answers false and stores both counts as they
    are when [count m] or [count h] has reached its limit, and otherwise
    answers true and stores both counts increased by exactly 1.  The other
    principals' entries and the revocation set stay as they were. *)
Theorem rate_limit_check_admission (self : SecurityManager) (user_data : UserData)
    (t_minute t_hour now : Z) :
  let old := entry self (username user_data) t_minute t_hour in
  let m := refreshed now 60 (minute old) in
  let h := refreshed now 3600 (hour old) in
  let result := rate_limit_check self user_data t_minute t_hour now in
  let after := _rate_limiters (snd result) !! username user_data in
  (if decide (count m >= RATE_LIMIT_MINUTE \/ count h >= RATE_LIMIT_HOUR)
   then fst result = false /\
        after = Some {| minute := m; hour := h |}
   else fst result = true /\
        after = Some {| minute := {| count := count m + 1; reset := reset m |};
                        hour := {| count := count h + 1; reset := reset h |} |}) /\
  (forall other, other <> username user_data ->
     _rate_limiters (snd result) !! other = _rate_limiters self !! other) /\
  _token_blacklist (snd result) = _token_blacklist self.
Proof.
  cbv zeta. rewrite rate_limit_check_unfold. cbv zeta.
  set (m := refreshed now 60 _). set (h := refreshed now 3600 _).
  destruct (Z.geb_spec (count m) RATE_LIMIT_MINUTE) as [Hm|Hm];
    destruct (Z.geb_spec (count h) RATE_LIMIT_HOUR) as [Hh|Hh]; cbn [orb fst snd];
    (split; [|split; [intros other Hne; cbn; apply lookup_insert_ne; congruence
                     | reflexivity]]);
    case_decide; try lia; (split; [reflexivity|]); cbn; apply lookup_insert_eq.
Qed.

(** C9. The check reads nothing of the principal but the user name: two
    principals that differ only in [rate_limit] get the same answer and
    leave the same limiter state. *)
Theorem rate_limit_check_ignores_override (self : SecurityManager)
    (u1 u2 : UserData) (t_minute t_hour now : Z) :
  username u1 = username u2 -> role u1 = role u2 -> permissions u1 = permissions u2 ->
  rate_limit_check self u1 t_minute t_hour now
  = rate_limit_check self u2 t_minute t_hour now.
Proof.
  intros Hu _ _. unfold rate_limit_check. rewrite Hu. reflexivity.
Qed.

Lemma rate_limit_check_ignores_override_witness :
  let u1 := {| username := "alice"; role := USER; permissions := ["read"];
               rate_limit := Some 5 |} in
  let u2 := {| username := "alice"; role := USER; permissions := ["read"];
               rate_limit := None |} in
  rate_limit_check Security.new u1 10 11 12 = rate_limit_check Security.new u2 10 11 12.
Proof.
  cbv zeta.
  exact (rate_limit_check_ignores_override Security.new
           {| username := "alice"; role := USER; permissions := ["read"];
              rate_limit := Some 5 |}
           {| username := "alice"; role := USER; permissions := ["read"];
              rate_limit := None |}
           10 11 12 eq_refl eq_refl eq_refl).
Defined.

(** C7 as stated fails: the middleware has no test on the role.  A request
    of an Admin principal whose minute window is used up is rejected with
    429 without the handler being run, and on a fresh manager the Admin's
    request consumes one unit of both of the principal's counters. *)
Lemma admin_bypass_refuted :
  (exists user_data,
     verify_token admin_only_decode admin_exhausted (PStr "admin-token")
     = Returned user_data /\ role user_data = ADMIN) /\
  middleware admin_only_decode admin_exhausted admin_request ok_handler
    1000000 1000000 1000000 world0
  = (Raised (HTTPException 429 "Rate limit exceeded"), admin_exhausted, world0) /\
  (let '(_, self', _) :=
     middleware admin_only_decode Security.new admin_request ok_handler
       1000000 1000001 1000002 world0 in
   _rate_limiters self' !! "root"
   = Some {| minute := {| count := 1; reset := 1000000 |};
             hour := {| count := 1; reset := 1000001 |} |}).
Proof.
  split; [|split].
  - eexists. split; [vm_compute; reflexivity | reflexivity].
  - vm_compute. reflexivity.
  - vm_compute. reflexivity.
Qed.

Section MiddlewareFacts.
Variable jwt_decode : string -> option Payload.

Lemma middleware_authenticated self request call_next t_minute t_hour now w
    token user_data :
  strip_bearer 0 (default "" (headers request !! "Authorization")) = token ->
  token <> "" ->
  verify_token jwt_decode self (PStr token) = Returned user_data ->
  middleware jwt_decode self request call_next t_minute t_hour now w
  = let '(ok, self1) := rate_limit_check self user_data t_minute t_hour now in
    if negb ok
    then (Raised (HTTPException 429 "Rate limit exceeded"), self1, w)
    else
      let '(r, w1) := await call_next w in
      match r with
      | Raised e => (Raised e, self1, w1)
      | Returned response =>
          match _rate_limiters self1 !! username user_data with
          | None => (Raised (KeyError (username user_data)), self1, w1)
          | Some l =>
              (Returned
                 {| response_headers :=
                      <["X-Rate-Limit-Remaining" :=
                          pretty (RATE_LIMIT_MINUTE - count (minute l))]>
                        (response_headers response);
                    body := body response |},
               self1, w1)
          end
      end.
Proof.
  intros Htok Hne Hver. unfold middleware.
  replace (match headers request !! "Authorization" with
           | Some v => v | None => "" end)
    with (default "" (headers request !! "Authorization"))
    by (destruct (headers request !! "Authorization"); reflexivity).
  rewrite Htok.
  destruct (String.eqb_spec token ""); [contradiction|].
  rewrite Hver. reflexivity.
Qed.

End MiddlewareFacts.

(** C7, amended. Every authenticated request is rate-limited, whatever the
    role of its principal, Admin included: the middleware runs
    [rate_limit_check] for the principal and keeps the limiter state it
    leaves; when the check denies, the request is rejected with 429 and the
    downstream handler is not run; when it admits, the handler is run exactly
    once. *)
Theorem middleware_rate_limits_every_role (jwt_decode : string -> option Payload)
    (self : SecurityManager) (request : Request) (call_next : operation Response)
    (t_minute t_hour now : Z) (w : World) (token : string) (user_data : UserData) :
  strip_bearer 0 (default "" (headers request !! "Authorization")) = token ->
  token <> "" ->
  verify_token jwt_decode self (PStr token) = Returned user_data ->
  let checked := rate_limit_check self user_data t_minute t_hour now in
  let '(r, self', w') :=
    middleware jwt_decode self request call_next t_minute t_hour now w in
  self' = snd checked /\
  if fst checked
  then invoked w' = S (invoked w) /\
       is_raised r = is_raised (fst (call_next (invoked w)))
  else r = Raised (HTTPException 429 "Rate limit exceeded") /\ w' = w.
Proof.
  intros Htok Hne Hver.
  rewrite (middleware_authenticated _ _ _ _ _ _ _ _ _ _ Htok Hne Hver).
  pose proof (rate_limit_check_entry self user_data t_minute t_hour now) as [l Hl].
  cbv zeta. destruct (rate_limit_check self user_data t_minute t_hour now) as [ok self1].
  cbn [fst snd] in *. destruct ok; cbn [negb].
  - unfold await. destruct (call_next (invoked w)) as [[response|e] d]; cbn [fst].
    + rewrite Hl. repeat split.
    + repeat split.
  - repeat split.
Qed.

Lemma middleware_rate_limits_every_role_witness :
  let '(r, self', w') :=
    middleware admin_only_decode admin_exhausted admin_request ok_handler
      1000000 1000000 1000000 world0 in
  self' = snd (rate_limit_check admin_exhausted
                 {| username := "root"; role := ADMIN;
                    permissions := ["read"; "write"]; rate_limit := None |}
                 1000000 1000000 1000000) /\
  r = Raised (HTTPException 429 "Rate limit exceeded") /\ w' = world0.
Proof.
  exact (middleware_rate_limits_every_role admin_only_decode admin_exhausted
           admin_request ok_handler 1000000 1000000 1000000 world0
           "admin-token"
           {| username := "root"; role := ADMIN;
              permissions := ["read"; "write"]; rate_limit := None |}
           eq_refl (fun H => eq_ind "admin-token"%string
                               (fun s => match s with
                                         | EmptyString => False
                                         | String _ _ => True
                                         end) I _ H)
           eq_refl).
Defined.

(** ** Permission check *)

Section PermissionFacts.
Variable jwt_decode : string -> option Payload.

(** [check_permission], handed a token that verifies, grants exactly to
    Admin and to principals holding every required permission. *)
Lemma check_permission_grants self token required_permissions user_data :
  verify_token jwt_decode self (PStr token) = Returned user_data ->
  exists granted,
    check_permission jwt_decode self (PStr token) required_permissions
    = Returned granted /\
    (granted = true <->
     role user_data = ADMIN \/
     forall perm, perm ∈ required_permissions -> perm ∈ permissions user_data).
Proof.
  intros Hver. unfold check_permission. rewrite Hver.
  assert (Hall : forallb (fun perm => bool_decide (perm ∈ permissions user_data))
                   required_permissions = true <->
                 forall perm, perm ∈ required_permissions ->
                              perm ∈ permissions user_data).
  { rewrite forallb_forall. split; intros H perm Hin.
    - apply list_elem_of_In in Hin. apply H in Hin.
      apply bool_decide_eq_true in Hin. exact Hin.
    - apply bool_decide_eq_true. apply H. apply list_elem_of_In. exact Hin. }
  destruct (role user_data) eqn:Hrole; eexists; (split; [reflexivity|]).
  - split; [left; reflexivity | reflexivity].
  - rewrite Hall. split; [right; assumption | intros [?|?]; [discriminate | assumption]].
  - rewrite Hall. split; [right; assumption | intros [?|?]; [discriminate | assumption]].
Qed.

End PermissionFacts.

(** C8 (the code departs from it). [require_permissions] hands the user's
    permission list to [check_permission] where the token belongs;
    [verify_token] then tests a list for membership in the revocation set,
    which raises TypeError.  The checker therefore neither grants nor denies
    with 403: every call ends in that TypeError, for Admin and for holders of
    all required permissions too. *)
Theorem require_permissions_type_error (jwt_decode : string -> option Payload)
    (self : SecurityManager) (required : list string) (user : UserData) :
  require_permissions jwt_decode self required user
  = Raised (TypeError "unhashable type: 'list'").
Proof. reflexivity. Qed.

Example require_permissions_holder_not_granted :
  require_permissions admin_only_decode Security.new ["read"]
    {| username := "alice"; role := USER; permissions := ["read"];
       rate_limit := None |}
  = Raised (TypeError "unhashable type: 'list'").
Proof. reflexivity. Qed.

(** * Further properties of the circuit breaker *)

Section BreakerRuns.
Context {R : Type}.
Implicit Types (self : CircuitBreaker) (func : operation R) (w : World).

(** One call on a Closed breaker. *)
Lemma call_closed self func w :
  state self = Closed ->
  call self func w
  = match fst (func (invoked w)) with
    | Returned result => (Returned result, self, snd (await func w))
    | Raised _ =>
        (Raised name_error,
         {| threshold := threshold self; reset_timeout := reset_timeout self;
            failures := failures self + 1;
            last_failure_time := last_failure_time self; state := Closed |},
         snd (await func w))
    end.
Proof.
  intros Hs. unfold call. rewrite (on_entry_closed _ _ Hs), complete_run.
  unfold on_success. rewrite Hs. reflexivity.
Qed.

Lemma calls_closed n : forall self func w,
  state self = Closed ->
  state (fst (calls n self func w)) = Closed /\
  failures (fst (calls n self func w))
  = failures self + Z.of_nat (raised_among func (invoked w) n) /\
  last_failure_time (fst (calls n self func w)) = last_failure_time self /\
  threshold (fst (calls n self func w)) = threshold self /\
  invoked (snd (calls n self func w)) = (invoked w + n)%nat.
Proof.
  induction n as [|n IH]; intros self func w Hs.
  - cbn. repeat split; [assumption | lia | lia].
  - cbn [calls raised_among]. rewrite (call_closed _ _ _ Hs).
    assert (Hi : invoked (snd (await func w)) = S (invoked w)).
    { unfold await. destruct (func (invoked w)). reflexivity. }
    destruct (fst (func (invoked w))) as [result|e]; cbn [is_raised].
    + destruct (IH self func (snd (await func w)) Hs) as (H1 & H2 & H3 & H4 & H5).
      rewrite H1, H2, H3, H4, H5, Hi. repeat split; lia.
    + match goal with |- context [calls n ?b func _] =>
        destruct (IH b func (snd (await func w)) eq_refl) as (H1 & H2 & H3 & H4 & H5)
      end.
      rewrite H1, H2, H3, H4, H5, Hi. cbn [failures last_failure_time threshold].
      repeat split; lia.
Qed.

End BreakerRuns.

(** X1. As the module stands, no number of failures opens a breaker.  A new
    breaker called [n] times in a row, with any operation, has invoked it
    [n] times and counts exactly the calls whose operation raised; it is
    still Closed and its last-failure timestamp is still 0, also when the
    count has passed the threshold. *)
Theorem breaker_never_opens {R} (th rt : Z) (func : operation R) (w : World) (n : nat) :
  state (fst (calls n (init th rt) func w)) = Closed /\
  failures (fst (calls n (init th rt) func w))
  = Z.of_nat (raised_among func (invoked w) n) /\
  last_failure_time (fst (calls n (init th rt) func w)) = 0 /\
  threshold (fst (calls n (init th rt) func w)) = th /\
  invoked (snd (calls n (init th rt) func w)) = (invoked w + n)%nat.
Proof.
  destruct (calls_closed n (init th rt) func w eq_refl) as (H1 & H2 & H3 & H4 & H5).
  cbn [init failures last_failure_time threshold] in *. rewrite Z.add_0_l in H2.
  repeat split; assumption.
Qed.

(** X2. What a call through the breaker does, as the module stands.  On an
    Open breaker it raises NameError without invoking the operation and
    without changing anything.  Otherwise it invokes the operation exactly
    once: if the operation returns, its result is handed back; if it raises,
    the failure is counted and NameError is raised in place of the
    operation's exception, state and timestamp staying as they were.  No call
    changes the threshold or the reset timeout. *)
Theorem call_outcomes_as_shipped {R} (self : CircuitBreaker)
    (func : operation R) (w : World) :
  let '(r, self', w') := call self func w in
  let counted :=
    {| threshold := threshold self; reset_timeout := reset_timeout self;
       failures := failures self + 1; last_failure_time := last_failure_time self;
       state := state self |} in
  threshold self' = threshold self /\ reset_timeout self' = reset_timeout self /\
  match state self with
  | Open => r = Raised name_error /\ self' = self /\ w' = w
  | Closed =>
      invoked w' = S (invoked w) /\
      match fst (func (invoked w)) with
      | Returned result => r = Returned result /\ self' = self
      | Raised _ => r = Raised name_error /\ self' = counted
      end
  | HalfOpen =>
      invoked w' = S (invoked w) /\
      match fst (func (invoked w)) with
      | Returned result =>
          r = Returned result /\
          self' = {| threshold := threshold self; reset_timeout := reset_timeout self;
                     failures := 0; last_failure_time := last_failure_time self;
                     state := Closed |}
      | Raised _ => r = Raised name_error /\ self' = counted
      end
  end.
Proof.
  unfold call, on_entry.
  destruct (state self) eqn:Hs; cbn [time_time]; [| repeat split |];
    rewrite complete_run; unfold await, on_success; rewrite Hs;
    destruct (func (invoked w)) as [[result|e] d]; cbn;
    repeat split; try (destruct self; cbn in *; congruence).
Qed.

(** X5. Invariant of every breaker the program can hold, under any
    interleaving of the calls that share it: it is Closed, its last-failure
    timestamp is 0, its failure count is not negative, and threshold and
    reset timeout are those given to the constructor.  Open and HalfOpen are
    unreachable as the module stands. *)
Theorem reachable_stays_closed (th rt : Z) (self : CircuitBreaker) :
  reachable th rt self ->
  state self = Closed /\ last_failure_time self = 0 /\ 0 <= failures self /\
  threshold self = th /\ reset_timeout self = rt.
Proof.
  intros Hreach. destruct (reachable_config _ _ _ Hreach) as [Hth Hrt].
  assert (Hcore : state self = Closed /\ last_failure_time self = 0 /\
                  0 <= failures self).
  { clear Hth Hrt.
    induction Hreach as [|self w self' _ IH Hadm|self _ IH|self e w _ IH].
    - cbn. repeat split. lia.
    - apply on_entry_returns in Hadm. destruct Hadm as [-> _]. exact IH.
    - destruct IH as (Hs & Hl & Hf). unfold on_success. rewrite Hs.
      repeat split; assumption.
    - destruct IH as (Hs & Hl & Hf). rewrite on_failure_shipped. cbn.
      repeat split; [assumption | assumption | lia]. }
  destruct Hcore as (H1 & H2 & H3). repeat split; assumption.
Qed.

Lemma reachable_stays_closed_witness :
  let self := snd (on_failure (snd (on_failure (init 2 60000000) TimeoutError world0))
                     TimeoutError world0) in
  state self = Closed /\ last_failure_time self = 0 /\ 0 <= failures self /\
  threshold self = 2 /\ reset_timeout self = 60000000.
Proof.
  cbv zeta.
  exact (reachable_stays_closed 2 60000000 _
           (reach_failure 2 60000000 _ TimeoutError world0
              (reach_failure 2 60000000 (init 2 60000000) TimeoutError world0
                 (reach_init 2 60000000)))).
Defined.

(** * Further properties of the retry decorator *)

Section RetryTrace.
Context {R : Type}.
Variables (max_retries retry_delay : Z) (func : operation R).

Local Abbreviation loop fuel := (wrapper_loop fuel max_retries retry_delay func).

Lemma run_handler_clock e w : clock (run_handler e w) = clock w.
Proof. unfold run_handler. destruct (_ !! _); reflexivity. Qed.

Lemma run_handler_handled e w :
  handled (run_handler e w)
  = handled w ++ match handler_for (@Raised R e) with Some h => [h] | None => [] end.
Proof.
  unfold run_handler, handler_for. destruct (_ !! _); cbn; [reflexivity|].
  rewrite app_nil_r. reflexivity.
Qed.

Lemma after_failure_fields retries e w1 :
  let w3 := after_failure max_retries retry_delay retries e w1 in
  invoked w3 = invoked w1 /\
  handled w3 = handled (run_handler e w1) /\
  slept w3 = slept w1 ++ (if retries + 1 <? max_retries
                           then [retry_delay * 2 ^ retries] else []) /\
  clock w3 = clock w1 + (if retries + 1 <? max_retries
                         then Z.max 0 (retry_delay * 2 ^ retries) else 0).
Proof.
  cbv zeta. unfold after_failure. destruct (_ <? _); cbn [sleep invoked handled slept clock].
  - rewrite run_handler_invoked, run_handler_slept, run_handler_clock. repeat split.
  - rewrite run_handler_invoked, run_handler_slept, run_handler_clock, app_nil_r.
    repeat split. lia.
Qed.

(** What a run of the loop leaves behind, for any operation: [k]
    invocations, the backoff sleeps between them, the handlers of the
    failures, and a clock that advanced by the sleeps and the durations. *)
Lemma loop_trace fuel : forall retries last_error w,
  0 <= retries < max_retries ->
  max_retries - retries <= Z.of_nat fuel ->
  exists o w' (k : nat),
    loop fuel retries last_error w = Some (o, w') /\
    (1 <= k)%nat /\ retries + Z.of_nat k <= max_retries /\
    invoked w' = (invoked w + k)%nat /\
    slept w' = slept w ++ backoffs retry_delay retries (k - 1) /\
    handled w' = handled w ++ handlers_run func (invoked w) k /\
    o = fst (func (invoked w + (k - 1))%nat) /\
    (is_raised o = true -> retries + Z.of_nat k = max_retries) /\
    (forall j, (j < k - 1)%nat -> is_raised (fst (func (invoked w + j)%nat)) = true) /\
    ((forall i, 0 <= snd (func i)) -> 0 <= retry_delay ->
     clock w' - clock w >= total (backoffs retry_delay retries (k - 1))).
Proof.
  induction fuel as [|fuel IH]; intros retries last_error w Hr Hfuel; [cbn in Hfuel; lia|].
  destruct (await func w) as [r w1] eqn:Hw.
  pose proof (await_invoked _ _ _ _ Hw) as Hi.
  pose proof (await_slept _ _ _ _ Hw) as Hsl.
  pose proof (await_fst func w) as Hf. rewrite Hw in Hf. cbn [fst] in Hf.
  assert (Hh1 : handled w1 = handled w).
  { unfold await in Hw. destruct (func (invoked w)). injection Hw as _ <-. reflexivity. }
  assert (Hc1 : clock w1 = clock w + snd (func (invoked w))).
  { unfold await in Hw. destruct (func (invoked w)). injection Hw as _ <-. reflexivity. }
  assert (Hlt : retries < max_retries) by lia.
  destruct r as [result|e].
  - exists (Returned result), w1, 1%nat.
    rewrite (loop_returns _ _ _ _ _ last_error _ _ _ Hlt Hw).
    unfold handlers_run, backoffs. cbn [seq omap list_omap map Nat.sub]. rewrite <- Hf. cbn [handler_for].
    rewrite !app_nil_r, Nat.add_0_r.
    repeat split; try assumption; try lia; try discriminate.
    intros Hd _. rewrite Hc1. specialize (Hd (invoked w)). unfold total; cbn. lia.
  - rewrite (loop_raises _ _ _ _ _ last_error _ _ _ Hlt Hw).
    destruct (after_failure_fields retries e w1) as (A1 & A2 & A3 & A4).
    destruct (Z.ltb_spec (retries + 1) max_retries) as [Hmore|Hlast].
    + destruct (IH (retries + 1) (Some e)
                  (after_failure max_retries retry_delay retries e w1))
        as (o & w' & k & Heq & Hk & Hkmax & Hinv & Hslept & Hhand & Ho & Hraised & Hpre & Hclk);
        [lia | lia |].
      exists o, w', (S k). rewrite Heq. split; [reflexivity|].
      rewrite A1, Hi in Hinv, Ho, Hhand, Hpre.
      split; [lia|]. split; [lia|]. split; [lia|]. split.
      { rewrite Hslept, A3, Hsl, <- app_assoc. cbn [app].
        replace (S k - 1)%nat with (S (k - 1)) by lia.
        rewrite backoffs_cons. reflexivity. }
      split.
      { rewrite Hhand, A2, run_handler_handled, Hh1, <- app_assoc. f_equal.
        unfold handlers_run. cbn [seq omap list_omap]. rewrite <- Hf.
        destruct (handler_for (Raised e)); reflexivity. }
      split.
      { rewrite Ho. do 2 f_equal. lia. }
      split; [intros H; specialize (Hraised H); lia|]. split.
      { intros j Hj. destruct j as [|j].
        - rewrite Nat.add_0_r, <- Hf. reflexivity.
        - replace (invoked w + S j)%nat with (S (invoked w) + j)%nat by lia.
          apply Hpre. lia. }
      intros Hd Hdelay. specialize (Hclk Hd Hdelay).
      replace (S k - 1)%nat with (S (k - 1)) by lia.
      rewrite backoffs_cons. unfold total in *. cbn [fold_right].
      rewrite A4 in Hclk. rewrite Hc1 in Hclk. specialize (Hd (invoked w)).
      assert (0 <= retry_delay * 2 ^ retries) by (apply Z.mul_nonneg_nonneg; lia).
      lia.
    + exists (Raised e), (after_failure max_retries retry_delay retries e w1), 1%nat.
      rewrite loop_done by lia. cbn [raise_].
      rewrite A1, A2, A3, A4, run_handler_handled, Hh1, Hsl, Hi, Hc1.
      unfold handlers_run, backoffs. cbn [seq omap list_omap map Nat.sub].
      rewrite !app_nil_r, Nat.add_0_r, <- Hf.
      split; [reflexivity|].
      split; [lia|]. split; [lia|]. split; [lia|]. split; [reflexivity|]. split.
      { destruct (handler_for (Raised e)); reflexivity. }
      split; [reflexivity|]. split; [intros _; lia|]. split; [intros j Hj; lia|].
      intros Hd _. specialize (Hd (invoked w)). unfold total; cbn. lia.
Qed.

End RetryTrace.

(** X6. For any operation and [max_retries >= 1] the wrapper finishes after
    [k] invocations, 1 <= k <= max_retries: the first [k-1] raised, each
    followed by its backoff sleep [retry_delay * 2^(j-1)], and the wrapper
    hands back the outcome of the [k]-th, with no sleep after it.  It never
    invokes the operation again after a success, and it raises only when all
    [max_retries] attempts are used up. *)
Theorem retry_any_operation {R} (max_retries retry_delay : Z) (func : operation R)
    (w : World) :
  1 <= max_retries ->
  exists o w' (k : nat),
    wrapper max_retries retry_delay func w = Some (o, w') /\
    (1 <= k)%nat /\ Z.of_nat k <= max_retries /\
    invoked w' = (invoked w + k)%nat /\
    slept w' = slept w ++ backoffs retry_delay 0 (k - 1) /\
    o = fst (func (invoked w + (k - 1))%nat) /\
    (forall j, (j < k - 1)%nat -> is_raised (fst (func (invoked w + j)%nat)) = true) /\
    (is_raised o = true -> Z.of_nat k = max_retries).
Proof.
  intros Hmax. unfold wrapper.
  destruct (loop_trace max_retries retry_delay func (Z.to_nat max_retries) 0 None w)
    as (o & w' & k & Heq & Hk & Hkmax & Hinv & Hslept & _ & Ho & Hraised & Hpre & _);
    [lia | lia |].
  exists o, w', k. rewrite Z.add_0_l in Hraised, Hkmax.
  repeat split; assumption.
Qed.

Lemma retry_any_operation_witness :
  exists o w' (k : nat),
    wrapper 3 1000000
      (fun i => if Nat.eqb i 1 then (Returned 7, 250) else (Raised TimeoutError, 250))
      world0 = Some (o, w') /\
    (1 <= k)%nat /\ Z.of_nat k <= 3 /\
    invoked w' = (0 + k)%nat /\
    slept w' = [] ++ backoffs 1000000 0 (k - 1).
Proof.
  destruct (retry_any_operation 3 1000000
              (fun i => if Nat.eqb i 1 then (Returned 7, 250) else (Raised TimeoutError, 250))
              world0 (Zle_bool_imp_le 1 3 eq_refl))
    as (o & w' & k & H1 & H2 & H3 & H4 & H5 & _).
  exists o, w', k. repeat split; assumption.
Defined.

(** X7. When the operation never takes negative time and the base delay is
    not negative, the clock advances over a run of the wrapper by at least
    the backoff waits between its invocations; a run that ends in a failure
    took at least [retry_delay * (2^0 + ... + 2^(max_retries-2))]. *)
Theorem retry_elapsed_time {R} (max_retries retry_delay : Z) (func : operation R)
    (w : World) :
  1 <= max_retries -> 0 <= retry_delay -> (forall i, 0 <= snd (func i)) ->
  exists o w',
    wrapper max_retries retry_delay func w = Some (o, w') /\
    clock w' - clock w
    >= retry_delay * (2 ^ Z.of_nat (invoked w' - invoked w - 1) - 1) /\
    (is_raised o = true ->
     clock w' - clock w >= retry_delay * (2 ^ (max_retries - 1) - 1)).
Proof.
  intros Hmax Hd Hdur. unfold wrapper.
  destruct (loop_trace max_retries retry_delay func (Z.to_nat max_retries) 0 None w)
    as (o & w' & k & Heq & Hk & Hkmax & Hinv & _ & _ & _ & Hraised & _ & Hclk);
    [lia | lia |].
  specialize (Hclk Hdur Hd). rewrite total_backoffs in Hclk.
  exists o, w'. split; [exact Heq|]. split.
  - replace (invoked w' - invoked w - 1)%nat with (k - 1)%nat by lia. exact Hclk.
  - intros H. specialize (Hraised H).
    replace (max_retries - 1) with (Z.of_nat (k - 1)) by lia. exact Hclk.
Qed.

Lemma retry_elapsed_time_witness :
  exists w',
    wrapper 3 1000000 (fun _ => (@Raised unit TimeoutError, 250)) world0
    = Some (Raised TimeoutError, w') /\
    clock w' - 0 >= 1000000 * (2 ^ (3 - 1) - 1).
Proof.
  destruct (retry_elapsed_time 3 1000000
              (fun _ => (@Raised unit TimeoutError, 250)) world0
              (Zle_bool_imp_le 1 3 eq_refl) (Zle_bool_imp_le 0 1000000 eq_refl)
              (fun _ => Zle_bool_imp_le 0 250 eq_refl))
    as (o & w' & Hrun & _ & Hclk).
  exists w'.
  assert (Ho : o = Raised TimeoutError).
  { vm_compute in Hrun. injection Hrun as <- _. reflexivity. }
  subst o. split; [exact Hrun | exact (Hclk eq_refl)].
Defined.

Lemma handlers_run_all {R} (func : operation R) (h : string) (k : nat) : forall i,
  (forall j, handler_for (fst (func j)) = Some h) ->
  handlers_run func i k = repeat h k.
Proof.
  unfold handlers_run. induction k as [|k IH]; intros i Hall; [reflexivity|].
  cbn [seq omap list_omap repeat]. rewrite Hall. f_equal. apply IH. exact Hall.
Qed.

(** X8. After each failed invocation the wrapper runs the handler registered
    under the exact class name of the exception, and none when the class has
    no handler; so the handlers it ran are those of the outcomes of its
    invocations, in order.  An operation whose failures all have the handler
    [h] makes it run [max_retries] times: once per attempt, the last
    included. *)
Theorem retry_runs_registered_handlers {R} (max_retries retry_delay : Z)
    (func : operation R) (w : World) :
  1 <= max_retries ->
  exists o w',
    wrapper max_retries retry_delay func w = Some (o, w') /\
    handled w' = handled w ++ handlers_run func (invoked w) (invoked w' - invoked w) /\
    (forall h, (forall j, handler_for (fst (func j)) = Some h) ->
               handled w' = handled w ++ repeat h (Z.to_nat max_retries)).
Proof.
  intros Hmax. unfold wrapper.
  destruct (loop_trace max_retries retry_delay func (Z.to_nat max_retries) 0 None w)
    as (o & w' & k & Heq & Hk & Hkmax & Hinv & _ & Hhand & Ho & Hraised & _);
    [lia | lia |].
  exists o, w'. split; [exact Heq|].
  replace (invoked w' - invoked w)%nat with k by lia.
  split; [exact Hhand|].
  intros h Hall. rewrite Hhand, (handlers_run_all _ h _ _ Hall).
  assert (Hr : is_raised o = true).
  { rewrite Ho. specialize (Hall (invoked w + (k - 1))%nat).
    destruct (fst (func (invoked w + (k - 1))%nat)); [discriminate | reflexivity]. }
  specialize (Hraised Hr). do 2 f_equal. lia.
Qed.

Lemma retry_runs_registered_handlers_witness :
  exists w',
    wrapper 2 1000000 (fun _ => (@Raised unit (EmbeddingError "no model"), 250)) world0
    = Some (Raised (EmbeddingError "no model"), w') /\
    handled w' = ["handle_embedding_error"; "handle_embedding_error"].
Proof.
  destruct (retry_runs_registered_handlers 2 1000000
              (fun _ => (@Raised unit (EmbeddingError "no model"), 250)) world0
              (Zle_bool_imp_le 1 2 eq_refl))
    as (o & w' & Hrun & _ & Hall).
  exists w'.
  assert (Ho : o = Raised (EmbeddingError "no model")).
  { vm_compute in Hrun. injection Hrun as <- _. reflexivity. }
  subst o. split; [exact Hrun|].
  exact (Hall "handle_embedding_error" (fun _ => eq_refl)).
Defined.

(** * Further properties of the gateway *)

(** What a call through a breaker does to the world: at most one invocation,
    no sleep. *)
Lemma call_frame {R} (self : CircuitBreaker) (func : operation R) (w : World) :
  let '(_, _, w') := call self func w in
  (invoked w <= invoked w' <= S (invoked w))%nat /\ slept w' = slept w.
Proof.
  unfold call, on_entry, complete, await.
  destruct (state self); cbn [time_time];
    try (destruct (func (invoked w)) as [[?|?] ?]); cbn; split; try lia; reflexivity.
Qed.

Section GatewayRuns.
Context {R : Type}.
Variables (jitter : Z -> Z) (service_name : string) (make_request : operation R).

Local Abbreviation body := (call_service_body service_name make_request).

(** One pass through the undecorated body: at most one invocation, no sleep,
    and of the gateway's state only the called service's breaker may
    change. *)
Lemma call_service_body_frame self w :
  let '(_, self', w') := body self w in
  (invoked w <= invoked w' <= S (invoked w))%nat /\
  slept w' = slept w /\
  services self' = services self /\
  (forall other, other <> service_name ->
     circuit_breakers self' !! other = circuit_breakers self !! other) /\
  dom (circuit_breakers self') = dom (circuit_breakers self).
Proof.
  unfold call_service_body.
  destruct (services self !! service_name) as [cfg|];
    [|repeat split; try lia; auto].
  destruct (circuit_breakers self !! service_name) as [cb|] eqn:Hcb;
    [|repeat split; try lia; auto].
  pose proof (call_frame cb make_request w) as Hcall.
  destruct (call cb make_request w) as [[r cb'] w'].
  destruct Hcall as (Hi & Hs). cbn [services circuit_breakers].
  repeat split; try lia; try assumption.
  - intros other Hne. apply lookup_insert_ne. congruence.
  - rewrite dom_insert_L. apply elem_of_dom_2 in Hcb. set_solver.
Qed.

(** The decorated call, started with [tries] calls already made. *)
Lemma on_exception_body_frame fuel : forall tries self w,
  0 <= tries < 3 -> 3 - tries <= Z.of_nat fuel ->
  exists r self' w',
    on_exception fuel retried 3 jitter body tries self w = Some (r, self', w') /\
    (invoked w <= invoked w')%nat /\
    Z.of_nat (invoked w') <= Z.of_nat (invoked w) + (3 - tries) /\
    (length (slept w) <= length (slept w'))%nat /\
    Z.of_nat (length (slept w')) <= Z.of_nat (length (slept w)) + (2 - tries) /\
    services self' = services self /\
    (forall other, other <> service_name ->
       circuit_breakers self' !! other = circuit_breakers self !! other) /\
    dom (circuit_breakers self') = dom (circuit_breakers self).
Proof.
  induction fuel as [|fuel IH]; intros tries self w Ht Hfuel; [cbn in Hfuel; lia|].
  cbn [on_exception].
  pose proof (call_service_body_frame self w) as Hb.
  destruct (body self w) as [[r self1] w1].
  destruct Hb as (Hi & Hs & Hsv & Hcb & Hdom).
  destruct r as [ret|e].
  - exists (Returned ret), self1, w1. rewrite Hs. repeat split; try assumption; lia.
  - destruct (retried e).
    2:{ exists (Raised e), self1, w1. rewrite Hs. repeat split; try assumption; lia. }
    destruct (Z.eqb_spec (tries + 1) 3) as [Heq|Hne].
    { exists (Raised e), self1, w1. rewrite Hs. repeat split; try assumption; lia. }
    destruct (IH (tries + 1) self1
                (sleep (jitter (1000000 * 2 ^ (tries + 1 - 1))) w1))
      as (r' & self' & w' & Hrun & H1 & H2 & H3 & H4 & H5 & H6 & H7); [lia | lia |].
    exists r', self', w'. rewrite Hrun.
    cbn [sleep invoked slept] in H1, H2, H3, H4. rewrite length_app in H3, H4.
    cbn [length] in H3, H4. rewrite Hs in H3, H4.
    split; [reflexivity|]. split; [lia|]. split; [lia|]. split; [lia|]. split; [lia|].
    split; [congruence|]. split; [|congruence].
    intros other Hne'. rewrite H6 by assumption. apply Hcb. assumption.
Qed.

End GatewayRuns.

(** X9. Whatever the state of the gateway and the behaviour of the request,
    [call_service] finishes after at most three invocations of the request
    and at most two backoff sleeps; it leaves the service configurations and
    the breakers of all other services as they were, and adds or removes no
    breaker. *)
Theorem call_service_bounded {R} (jitter : Z -> Z) (service_name : string)
    (make_request : operation R) (self : ServiceIntegration) (w : World) :
  exists r self' w',
    call_service jitter service_name make_request self w = Some (r, self', w') /\
    (invoked w <= invoked w' <= invoked w + 3)%nat /\
    (length (slept w) <= length (slept w') <= length (slept w) + 2)%nat /\
    services self' = services self /\
    (forall other, other <> service_name ->
       circuit_breakers self' !! other = circuit_breakers self !! other) /\
    dom (circuit_breakers self') = dom (circuit_breakers self).
Proof.
  unfold call_service.
  destruct (on_exception_body_frame jitter service_name make_request 3 0 self w)
    as (r & self' & w' & Hrun & H1 & H2 & H3 & H4 & H5 & H6 & H7); [lia | cbn; lia |].
  exists r, self', w'. repeat split; try assumption; lia.
Qed.

(** X10. A call to a service that is not registered raises
    [ValueError("Unknown service: <name>")] at once: the request is not
    invoked, nothing is slept, the gateway is unchanged, and the failure is
    not retried. *)
Theorem call_service_unknown {R} (jitter : Z -> Z) (service_name : string)
    (make_request : operation R) (self : ServiceIntegration) (w : World) :
  services self !! service_name = None ->
  call_service jitter service_name make_request self w
  = Some (Raised (ValueError ("Unknown service: " ++ service_name)%string), self, w).
Proof.
  intros Hnone. unfold call_service. cbn [on_exception].
  unfold call_service_body. rewrite Hnone. reflexivity.
Qed.

Lemma call_service_unknown_witness :
  call_service (fun d => d) "billing" (fun _ => (Returned 7, 1000))
    (initialize Gateway.new) world0
  = Some (Raised (ValueError "Unknown service: billing"), initialize Gateway.new, world0).
Proof.
  refine (call_service_unknown (fun d => d) "billing" (fun _ => (Returned 7, 1000))
            (initialize Gateway.new) world0 _).
  vm_compute. reflexivity.
Defined.

(** The exceptions that leave the undecorated body are none of the
    decorator's classes. *)
Lemma call_service_body_raises {R} (service_name : string)
    (make_request : operation R) (self : ServiceIntegration) (w : World) e self1 w1 :
  call_service_body service_name make_request self w = (Raised e, self1, w1) ->
  retried e = false.
Proof.
  unfold call_service_body.
  destruct (services self !! service_name); [|intros H; injection H as <- _ _; reflexivity].
  destruct (circuit_breakers self !! service_name) as [cb|];
    [|intros H; injection H as <- _ _; reflexivity].
  unfold call, on_entry.
  destruct (state cb); cbn [time_time];
    try rewrite complete_run;
    try (destruct (fst (make_request (invoked w))));
    intros H; injection H as H _ _; try discriminate H; subst e; reflexivity.
Qed.

(** X3. As the module stands, [call_service] never retries.  Every
    exception that leaves the decorated body (ValueError for an unknown
    service, or the NameError by which the breaker answers a failed request
    and an Open state) is outside the two classes of the decorator: the call
    ends with the first attempt, having invoked the request at most once and
    slept not at all. *)
Theorem call_service_single_attempt {R} (jitter : Z -> Z) (service_name : string)
    (make_request : operation R) (self : ServiceIntegration) (w : World) :
  call_service jitter service_name make_request self w
  = Some (call_service_body service_name make_request self w) /\
  (let '(r, _, w') := call_service_body service_name make_request self w in
   slept w' = slept w /\ (invoked w' <= S (invoked w))%nat /\
   match r with
   | Returned result => fst (make_request (invoked w)) = Returned result
   | Raised e => retried e = false
   end).
Proof.
  unfold call_service. cbn [on_exception].
  pose proof (call_service_body_frame service_name make_request self w) as Hframe.
  pose proof (call_service_body_raises service_name make_request self w) as Hraise.
  assert (Hret : forall result self1 w1,
            call_service_body service_name make_request self w
            = (Returned result, self1, w1) ->
            fst (make_request (invoked w)) = Returned result).
  { unfold call_service_body.
    destruct (services self !! service_name); [|discriminate].
    destruct (circuit_breakers self !! service_name) as [cb|]; [|discriminate].
    unfold call, on_entry. intros result self1 w1.
    destruct (state cb); cbn [time_time]; try discriminate;
      rewrite complete_run; destruct (fst (make_request (invoked w)));
      intros H; injection H as H _ _; congruence. }
  destruct (call_service_body service_name make_request self w) as [[r self1] w1].
  destruct Hframe as (Hi & Hs & _).
  destruct r as [result|e].
  - split; [reflexivity|]. repeat split; [assumption | lia | eapply Hret; reflexivity].
  - rewrite (Hraise e self1 w1 eq_refl).
    split; [reflexivity|]. repeat split; [assumption | lia].
Qed.

(** X11. When the breaker of a registered service is Open, [call_service]
    ends at once in the NameError of the breaker's entry test, whatever the
    time elapsed since the last failure: the request is not invoked, the
    failure is not retried (no sleep), and the gateway is unchanged. *)
Theorem call_service_open_breaker {R} (jitter : Z -> Z) (service_name : string)
    (make_request : operation R) (self : ServiceIntegration) (w : World)
    (circuit_breaker : CircuitBreaker) :
  is_Some (services self !! service_name) ->
  circuit_breakers self !! service_name = Some circuit_breaker ->
  state circuit_breaker = Open ->
  call_service jitter service_name make_request self w
  = Some (Raised (NameError "name 'time' is not defined"), self, w).
Proof.
  intros [cfg Hcfg] Hcb Hs. unfold call_service. cbn [on_exception].
  unfold call_service_body. rewrite Hcfg, Hcb.
  unfold call. rewrite (on_entry_open _ _ Hs). cbn.
  rewrite insert_id by exact Hcb. destruct self; reflexivity.
Qed.

Lemma call_service_open_breaker_witness :
  let tripped := {| threshold := 5; reset_timeout := 60000000; failures := 5;
                    last_failure_time := 0; state := Open |} in
  let self := {| services := services (initialize Gateway.new);
                 circuit_breakers :=
                   <["model" := tripped]> (circuit_breakers (initialize Gateway.new)) |} in
  call_service (fun d => d) "model" (fun _ => (Returned 7, 1000)) self world0
  = Some (Raised (NameError "name 'time' is not defined"), self, world0).
Proof.
  cbv zeta.
  refine (call_service_open_breaker (fun d => d) "model" (fun _ => (Returned 7, 1000))
            _ world0
            {| threshold := 5; reset_timeout := 60000000; failures := 5;
               last_failure_time := 0; state := Open |} _ _ eq_refl).
  - vm_compute. eauto.
  - vm_compute. reflexivity.
Defined.

(** X12. Registration and lookup: after [register_service config] the
    configuration is found under its name together with a new Closed breaker
    (failure count 0, the configured threshold, reset timeout 60s), whatever
    breaker the name had before; every other service keeps its configuration
    and its breaker; and the next call to the service invokes the request
    exactly once, handing back its result when it returns and raising
    NameError when it raises. *)
Theorem register_service_lookup {R} (config : ServiceConfig) (self : ServiceIntegration)
    (make_request : operation R) (w : World) :
  let self1 := register_service config self in
  services self1 !! name config = Some config /\
  circuit_breakers self1 !! name config
  = Some (init (circuit_breaker_threshold config) 60000000) /\
  (forall other, other <> name config ->
     services self1 !! other = services self !! other /\
     circuit_breakers self1 !! other = circuit_breakers self !! other) /\
  (let '(r, _, w') := call_service_body (name config) make_request self1 w in
   invoked w' = S (invoked w) /\
   match fst (make_request (invoked w)) with
   | Returned result => r = Returned result
   | Raised _ => r = Raised name_error
   end).
Proof.
  cbv zeta. unfold register_service. cbn [services circuit_breakers].
  split; [apply lookup_insert_eq|]. split; [apply lookup_insert_eq|]. split.
  - intros other Hne. split; apply lookup_insert_ne; congruence.
  - unfold call_service_body. cbn [services circuit_breakers].
    rewrite !lookup_insert_eq. unfold call, on_entry, init. cbn [state].
    unfold complete, await. destruct (make_request (invoked w)) as [[ret|e] d];
      cbn; split; reflexivity.
Qed.

(** * Further properties of the security manager *)

Section RateLimitRuns.
Variables (user_data : UserData).

Lemma refreshed_fresh now length_s x :
  now - reset x <= length_s * 1000000 -> refreshed now length_s x = x.
Proof.
  intros H. unfold refreshed.
  destruct (Z.gtb_spec (now - reset x) (length_s * 1000000)); [lia | reflexivity].
Qed.

(** A check on an existing entry none of whose windows has run out. *)
Lemma rate_limit_check_in_window self l t_minute t_hour now :
  _rate_limiters self !! username user_data = Some l ->
  now - reset (minute l) <= 60 * 1000000 ->
  now - reset (hour l) <= 3600 * 1000000 ->
  rate_limit_check self user_data t_minute t_hour now
  = if (count (minute l) >=? RATE_LIMIT_MINUTE) || (count (hour l) >=? RATE_LIMIT_HOUR)
    then (false, store (username user_data) l self)
    else (true, store (username user_data)
                  {| minute := bump (minute l); hour := bump (hour l) |} self).
Proof.
  intros Hl Hm Hh. rewrite rate_limit_check_unfold. cbv zeta.
  unfold entry. rewrite Hl.
  rewrite (refreshed_fresh _ _ _ Hm), (refreshed_fresh _ _ _ Hh).
  destruct l as [m h]. reflexivity.
Qed.

Lemma checks_in_window readings : forall self l,
  _rate_limiters self !! username user_data = Some l ->
  Forall (fun r => snd r - reset (minute l) <= 60 * 1000000 /\
                   snd r - reset (hour l) <= 3600 * 1000000) readings ->
  let n := length readings in
  let q := Z.to_nat (quota l) in
  fst (checks self user_data readings)
  = repeat true (Nat.min n q) ++ repeat false (n - q) /\
  _rate_limiters (snd (checks self user_data readings)) !! username user_data
  = Some {| minute := {| count := count (minute l) + Z.of_nat (Nat.min n q);
                         reset := reset (minute l) |};
            hour := {| count := count (hour l) + Z.of_nat (Nat.min n q);
                       reset := reset (hour l) |} |}.
Proof.
  induction readings as [|[[tm th] now] rest IH]; intros self l Hl Hall; cbv zeta.
  - cbn. rewrite Hl, !Z.add_0_r. destruct l as [[] []]. split; reflexivity.
  - inversion Hall as [|? ? [Hm Hh] Hrest]; subst. cbn [snd] in Hm, Hh.
    cbn [checks length].
    rewrite (rate_limit_check_in_window self l tm th now Hl Hm Hh).
    unfold quota, RATE_LIMIT_MINUTE, RATE_LIMIT_HOUR in *.
    destruct (Z.geb_spec (count (minute l)) 100) as [Hcm|Hcm];
      [|destruct (Z.geb_spec (count (hour l)) 1000) as [Hch|Hch]]; cbn [orb].
    + specialize (IH (store (username user_data) l self) l
                    ltac:(cbn; apply lookup_insert_eq) Hrest). cbv zeta in IH.
      destruct (checks (store (username user_data) l self) user_data rest) as [oks self2].
      cbn [fst snd] in *. destruct IH as [IH1 IH2].
      replace (Z.to_nat (Z.min (100 - count (minute l)) (1000 - count (hour l))))
        with 0%nat in * by lia.
      rewrite Nat.min_0_r, Nat.sub_0_r in *. cbn [repeat app] in *.
      rewrite IH1, IH2. split; reflexivity.
    + specialize (IH (store (username user_data) l self) l
                    ltac:(cbn; apply lookup_insert_eq) Hrest). cbv zeta in IH.
      destruct (checks (store (username user_data) l self) user_data rest) as [oks self2].
      cbn [fst snd] in *. destruct IH as [IH1 IH2].
      replace (Z.to_nat (Z.min (100 - count (minute l)) (1000 - count (hour l))))
        with 0%nat in * by lia.
      rewrite Nat.min_0_r, Nat.sub_0_r in *. cbn [repeat app] in *.
      rewrite IH1, IH2. split; reflexivity.
    + set (l' := {| minute := bump (minute l); hour := bump (hour l) |}).
      specialize (IH (store (username user_data) l' self) l'
                    ltac:(cbn; apply lookup_insert_eq) Hrest). cbv zeta in IH.
      destruct (checks (store (username user_data) l' self) user_data rest) as [oks self2].
      cbn [fst snd] in *. destruct IH as [IH1 IH2].
      subst l'. cbn [minute hour bump count reset] in *.
      set (q := Z.to_nat (Z.min (100 - count (minute l)) (1000 - count (hour l)))).
      replace (Z.to_nat (Z.min (100 - (count (minute l) + 1))
                           (1000 - (count (hour l) + 1))))
        with (q - 1)%nat in * by (subst q; lia).
      assert (Hq : (1 <= q)%nat) by (subst q; lia).
      replace (Nat.min (S (length rest)) q)
        with (S (Nat.min (length rest) (q - 1))) by lia.
      replace (S (length rest) - q)%nat with (length rest - (q - 1))%nat by lia.
      cbn [repeat app]. rewrite IH1, IH2. split; [reflexivity|].
      do 3 f_equal; lia.
Qed.

End RateLimitRuns.

(** X13. Within the current windows of a principal (no reading of the clock
    is past the end of the minute or of the hour window) a run of [n] checks
    admits exactly the first [q] of them, [q] being the principal's remaining
    quota (the smaller of the two limits minus counts), and denies all the
    others; both counters end up increased by the number admitted and the
    windows keep their start. *)
Theorem rate_limit_quota_per_window (self : SecurityManager) (user_data : UserData)
    (l : Limiter) (readings : list (Z * Z * Z)) :
  _rate_limiters self !! username user_data = Some l ->
  Forall (fun r => snd r - reset (minute l) <= 60 * 1000000 /\
                   snd r - reset (hour l) <= 3600 * 1000000) readings ->
  let n := length readings in
  let q := Z.to_nat (quota l) in
  fst (checks self user_data readings)
  = repeat true (Nat.min n q) ++ repeat false (n - q) /\
  _rate_limiters (snd (checks self user_data readings)) !! username user_data
  = Some {| minute := {| count := count (minute l) + Z.of_nat (Nat.min n q);
                         reset := reset (minute l) |};
            hour := {| count := count (hour l) + Z.of_nat (Nat.min n q);
                       reset := reset (hour l) |} |}.
Proof. intros Hl Hall. exact (checks_in_window user_data readings self l Hl Hall). Qed.

Lemma rate_limit_quota_per_window_witness :
  let alice := {| username := "alice"; role := USER; permissions := [];
                  rate_limit := None |} in
  let l := {| minute := {| count := 98; reset := 0 |};
              hour := {| count := 98; reset := 0 |} |} in
  let self := {| _token_blacklist := ∅; _rate_limiters := {[ "alice" := l ]} |} in
  fst (checks self alice [(0, 0, 1000000); (0, 0, 2000000); (0, 0, 3000000)])
  = [true; true; false].
Proof.
  cbv zeta.
  refine (proj1 (rate_limit_quota_per_window
            {| _token_blacklist := ∅;
               _rate_limiters :=
                 {[ "alice" := {| minute := {| count := 98; reset := 0 |};
                                  hour := {| count := 98; reset := 0 |} |} ]} |}
            {| username := "alice"; role := USER; permissions := [];
               rate_limit := None |}
            {| minute := {| count := 98; reset := 0 |};
               hour := {| count := 98; reset := 0 |} |}
            [(0, 0, 1000000); (0, 0, 2000000); (0, 0, 3000000)] _ _)).
  - vm_compute. reflexivity.
  - repeat constructor; cbn; lia.
Defined.

(** X14. Counters stay within their limits: if every stored entry has both
    counts between 0 and the configured limits, the same holds after any
    check of any principal (and holds of the empty manager), so the
    remaining-quota header of an admitted request is never negative. *)
Theorem rate_limit_counts_bounded (self : SecurityManager) (user_data : UserData)
    (t_minute t_hour now : Z) :
  map_Forall (fun _ l => within_limits l) (_rate_limiters self) ->
  map_Forall (fun _ l => within_limits l)
    (_rate_limiters (snd (rate_limit_check self user_data t_minute t_hour now))) /\
  (forall l, _rate_limiters (snd (rate_limit_check self user_data t_minute t_hour now))
               !! username user_data = Some l ->
             0 <= RATE_LIMIT_MINUTE - count (minute l)).
Proof.
  intros Hall.
  assert (Hgoal : map_Forall (fun _ l => within_limits l)
            (_rate_limiters (snd (rate_limit_check self user_data t_minute t_hour now)))).
  { rewrite rate_limit_check_unfold. cbv zeta.
    set (old := entry self (username user_data) t_minute t_hour).
    assert (Hold : within_limits old).
    { unfold old, entry. destruct (_ !! _) as [l|] eqn:Hl.
      - exact (Hall _ _ Hl).
      - unfold within_limits, RATE_LIMIT_MINUTE, RATE_LIMIT_HOUR; cbn. lia. }
    assert (Hm : 0 <= count (refreshed now 60 (minute old)) <= RATE_LIMIT_MINUTE).
    { unfold refreshed. destruct (_ >? _); [cbn; unfold RATE_LIMIT_MINUTE; lia | apply Hold]. }
    assert (Hh : 0 <= count (refreshed now 3600 (hour old)) <= RATE_LIMIT_HOUR).
    { unfold refreshed. destruct (_ >? _); [cbn; unfold RATE_LIMIT_HOUR; lia | apply Hold]. }
    destruct (Z.geb_spec (count (refreshed now 60 (minute old))) RATE_LIMIT_MINUTE);
      [|destruct (Z.geb_spec (count (refreshed now 3600 (hour old))) RATE_LIMIT_HOUR)];
      cbn [orb snd store _rate_limiters];
      (apply map_Forall_insert_2; [|exact Hall]);
      unfold within_limits; cbn [minute hour bump count]; lia. }
  split; [exact Hgoal|].
  intros l Hl. specialize (Hgoal _ _ Hl). unfold within_limits in Hgoal. lia.
Qed.

Lemma rate_limit_counts_bounded_witness :
  map_Forall (fun _ l => within_limits l)
    (_rate_limiters (snd (rate_limit_check Security.new
                            {| username := "alice"; role := USER; permissions := [];
                               rate_limit := None |} 10 11 12))).
Proof.
  exact (proj1 (rate_limit_counts_bounded Security.new
                  {| username := "alice"; role := USER; permissions := [];
                     rate_limit := None |} 10 11 12
                  (map_Forall_empty _))).
Defined.

(** X15. The two windows are independent.  Once the minute window of a
    principal has run out (more than 60s since its start) while the hour
    window has not, a check is admitted whenever the hour count is below its
    limit, however many requests the old minute window had seen: the minute
    window restarts at [now] with count 1, the hour window keeps its start
    and counts one more. *)
Theorem minute_window_elapsed_readmits (self : SecurityManager) (user_data : UserData)
    (l : Limiter) (t_minute t_hour now : Z) :
  _rate_limiters self !! username user_data = Some l ->
  now - reset (minute l) > 60 * 1000000 ->
  now - reset (hour l) <= 3600 * 1000000 ->
  count (hour l) < RATE_LIMIT_HOUR ->
  rate_limit_check self user_data t_minute t_hour now
  = (true,
     store (username user_data)
       {| minute := {| count := 1; reset := now |};
          hour := {| count := count (hour l) + 1; reset := reset (hour l) |} |}
       self).
Proof.
  intros Hl Hm Hh Hc. rewrite rate_limit_check_unfold. cbv zeta.
  unfold entry. rewrite Hl. rewrite (refreshed_fresh _ _ _ Hh).
  assert (Href : refreshed now 60 (minute l) = {| count := 0; reset := now |}).
  { unfold refreshed.
    destruct (Z.gtb_spec (now - reset (minute l)) (60 * 1000000)); [reflexivity | lia]. }
  rewrite Href. cbn [count]. unfold RATE_LIMIT_MINUTE, RATE_LIMIT_HOUR in *.
  destruct (Z.geb_spec 0 100); [lia|].
  destruct (Z.geb_spec (count (hour l)) 1000); [lia|]. cbn [orb].
  unfold bump. cbn [count reset]. reflexivity.
Qed.

Lemma minute_window_elapsed_readmits_witness :
  let alice := {| username := "alice"; role := USER; permissions := [];
                  rate_limit := None |} in
  let l := {| minute := {| count := 100; reset := 0 |};
              hour := {| count := 100; reset := 0 |} |} in
  let self := {| _token_blacklist := ∅; _rate_limiters := {[ "alice" := l ]} |} in
  rate_limit_check self alice 0 0 61000000
  = (true,
     store "alice" {| minute := {| count := 1; reset := 61000000 |};
                      hour := {| count := 101; reset := 0 |} |} self).
Proof.
  cbv zeta.
  refine (minute_window_elapsed_readmits
            {| _token_blacklist := ∅;
               _rate_limiters :=
                 {[ "alice" := {| minute := {| count := 100; reset := 0 |};
                                  hour := {| count := 100; reset := 0 |} |} ]} |}
            {| username := "alice"; role := USER; permissions := [];
               rate_limit := None |}
            {| minute := {| count := 100; reset := 0 |};
               hour := {| count := 100; reset := 0 |} |}
            0 0 61000000 _ _ _ _).
  - vm_compute. reflexivity.
  - cbn. lia.
  - cbn. lia.
  - cbn. unfold RATE_LIMIT_HOUR. lia.
Defined.

Section TokenFacts.
Variable jwt_decode : string -> option Payload.

Lemma verify_token_revoked self token :
  token ∈ _token_blacklist self ->
  verify_token jwt_decode self (PStr token)
  = Raised (HTTPException 401 "Token has been revoked").
Proof. intros H. unfold verify_token. rewrite decide_True by exact H. reflexivity. Qed.

(** A request whose credential does not verify. *)
Lemma middleware_rejected self request call_next t_minute t_hour now w token e :
  strip_bearer 0 (default "" (headers request !! "Authorization")) = token ->
  token <> "" ->
  verify_token jwt_decode self (PStr token) = Raised e ->
  middleware jwt_decode self request call_next t_minute t_hour now w
  = (Raised e, self, w).
Proof.
  intros Htok Hne Hver. unfold middleware.
  replace (match headers request !! "Authorization" with
           | Some v => v | None => "" end)
    with (default "" (headers request !! "Authorization"))
    by (destruct (headers request !! "Authorization"); reflexivity).
  rewrite Htok. destruct (String.eqb_spec token ""); [contradiction|].
  rewrite Hver. reflexivity.
Qed.

(** A request without credential. *)
Lemma middleware_anonymous self request call_next t_minute t_hour now w :
  strip_bearer 0 (default "" (headers request !! "Authorization")) = "" ->
  middleware jwt_decode self request call_next t_minute t_hour now w
  = (fst (await call_next w), self, snd (await call_next w)).
Proof.
  intros Htok. unfold middleware.
  replace (match headers request !! "Authorization" with
           | Some v => v | None => "" end)
    with (default "" (headers request !! "Authorization"))
    by (destruct (headers request !! "Authorization"); reflexivity).
  rewrite Htok. cbn. destruct (await call_next w). reflexivity.
Qed.

End TokenFacts.

Lemma Role_of_raises value e :
  Role_of value = Raised e -> exists msg, e = ValueError msg.
Proof.
  unfold Role_of. destruct value as [s|].
  - repeat (destruct (String.eqb _ _); [discriminate|]).
    intros H; injection H as <-. eauto.
  - intros H; injection H as <-. eauto.
Qed.

(** X16. What [verify_token] can answer for a string token.  It returns a
    user only for a token that is not revoked and decodes to claims with a
    subject and a role among admin, user, service; the user carries the
    subject, that role and the permissions claim (none if absent), and its
    [rate_limit] override is never set.  Every failure is an HTTP 401, except
    that a missing or unknown role surfaces as a ValueError. *)
Theorem verify_token_result (jwt_decode : string -> option Payload)
    (self : SecurityManager) (token : string) :
  match verify_token jwt_decode self (PStr token) with
  | Returned user =>
      (token ∉ _token_blacklist self) /\
      exists payload,
        jwt_decode token = Some payload /\
        sub payload = Some (username user) /\
        Role_of (role_claim payload) = Returned (role user) /\
        permissions user = default [] (permissions_claim payload) /\
        rate_limit user = None
  | Raised e =>
      (exists detail, e = HTTPException 401 detail) \/
      (exists payload msg,
         (token ∉ _token_blacklist self) /\ jwt_decode token = Some payload /\
         is_Some (sub payload) /\
         Role_of (role_claim payload) = Raised e /\ e = ValueError msg)
  end.
Proof.
  unfold verify_token. case_decide as Hbl; [left; eauto|].
  destruct (jwt_decode token) as [payload|] eqn:Hdec; [|left; eauto].
  destruct (sub payload) as [name|] eqn:Hsub; [|left; eauto].
  destruct (Role_of (role_claim payload)) as [r|e] eqn:Hrole.
  - split; [exact Hbl|]. exists payload. cbn.
    repeat split; assumption.
  - right. destruct (Role_of_raises _ _ Hrole) as [msg ->].
    exists payload, msg. rewrite Hsub. repeat split; eauto.
Qed.

(** X17. Revocation is final.  A token that has been revoked is rejected by
    [verify_token] with 401 "Token has been revoked" whatever it decodes to;
    neither further revocations nor rate-limit checks take a token out of the
    revocation set; and a request that presents a revoked token is rejected
    by the middleware before the handler runs and without any rate-limit
    state being created or consumed. *)
Theorem revoked_token_rejected (jwt_decode : string -> option Payload)
    (self : SecurityManager) (token : string) :
  verify_token jwt_decode (revoke_token token self) (PStr token)
  = Raised (HTTPException 401 "Token has been revoked") /\
  (forall other, token ∈ _token_blacklist self ->
                 token ∈ _token_blacklist (revoke_token other self)) /\
  (forall user_data t_minute t_hour now,
     _token_blacklist (snd (rate_limit_check self user_data t_minute t_hour now))
     = _token_blacklist self) /\
  (forall request call_next t_minute t_hour now w,
     strip_bearer 0 (default "" (headers request !! "Authorization")) = token ->
     token <> "" ->
     middleware jwt_decode (revoke_token token self) request call_next
       t_minute t_hour now w
     = (Raised (HTTPException 401 "Token has been revoked"),
        revoke_token token self, w)).
Proof.
  assert (Hin : token ∈ _token_blacklist (revoke_token token self))
    by (cbn; set_solver).
  split; [apply verify_token_revoked; exact Hin|].
  split; [intros other H; cbn; set_solver|].
  split.
  - intros user_data t_minute t_hour now. rewrite rate_limit_check_unfold. cbv zeta.
    destruct (_ || _); reflexivity.
  - intros request call_next t_minute t_hour now w Htok Hne.
    apply (middleware_rejected jwt_decode _ _ _ _ _ _ _ token _ Htok Hne).
    apply verify_token_revoked. exact Hin.
Qed.

(** X18. The middleware never changes the revocation set and runs the
    handler at most once; it touches no limiter entry but that of the
    principal the credential verifies to, so a request without credential
    (no Authorization header, or nothing left of it once "Bearer " is
    removed) or with a credential that does not verify leaves the security
    manager exactly as it was. *)
Theorem middleware_frame (jwt_decode : string -> option Payload)
    (self : SecurityManager) (request : Request) (call_next : operation Response)
    (t_minute t_hour now : Z) (w : World) :
  let token := strip_bearer 0 (default "" (headers request !! "Authorization")) in
  let '(_, self', w') :=
    middleware jwt_decode self request call_next t_minute t_hour now w in
  _token_blacklist self' = _token_blacklist self /\
  (invoked w <= invoked w' <= S (invoked w))%nat /\
  (forall other,
     (forall user_data, token <> "" ->
        verify_token jwt_decode self (PStr token) = Returned user_data ->
        username user_data <> other) ->
     _rate_limiters self' !! other = _rate_limiters self !! other) /\
  (token = "" \/ is_raised (verify_token jwt_decode self (PStr token)) = true ->
   self' = self).
Proof.
  cbv zeta.
  set (token := strip_bearer 0 (default "" (headers request !! "Authorization"))).
  assert (Hawait : forall w0, (invoked w0 <= invoked (snd (await call_next w0))
                               <= S (invoked w0))%nat).
  { intros w0. unfold await. destruct (call_next (invoked w0)). cbn. lia. }
  destruct (String.eqb_spec token "") as [Hempty|Hne].
  - rewrite (middleware_anonymous jwt_decode _ _ _ _ _ _ _ Hempty).
    repeat split; try apply Hawait; reflexivity.
  - destruct (verify_token jwt_decode self (PStr token)) as [user_data|e] eqn:Hver.
    + rewrite (middleware_authenticated jwt_decode _ _ _ _ _ _ _ token user_data
                 eq_refl Hne Hver).
      pose proof (rate_limit_check_unfold self user_data t_minute t_hour now) as Hrl.
      cbv zeta in Hrl.
      destruct (rate_limit_check self user_data t_minute t_hour now) as [ok self1].
      assert (Hbl : _token_blacklist self1 = _token_blacklist self)
        by (destruct (_ || _); injection Hrl as _ ->; reflexivity).
      assert (Hother : forall other, username user_data <> other ->
                _rate_limiters self1 !! other = _rate_limiters self !! other).
      { intros other Hneq. destruct (_ || _); injection Hrl as _ ->; cbn;
          apply lookup_insert_ne; exact Hneq. }
      assert (Hfin : forall other,
                (forall u, token <> "" -> Returned user_data = Returned u ->
                           username u <> other) ->
                _rate_limiters self1 !! other = _rate_limiters self !! other).
      { intros other H. apply Hother. apply H; [exact Hne | reflexivity]. }
      assert (Hno : token = "" \/ is_raised (Returned user_data) = true -> self1 = self).
      { intros [?|?]; [contradiction | discriminate]. }
      destruct ok; cbn [negb].
      * pose proof (Hawait w) as Hw. destruct (await call_next w) as [r w1].
        cbn [snd] in Hw.
        destruct r as [response|e];
          [destruct (_rate_limiters self1 !! username user_data)|];
          repeat split; try lia; try assumption.
      * repeat split; try lia; assumption.
    + rewrite (middleware_rejected jwt_decode _ _ _ _ _ _ _ token e eq_refl Hne Hver).
      repeat split; lia.
Qed.

(** X19. The quota header.  When the check admits an authenticated request
    and the handler returns a response, the middleware hands back that
    response with its body and its other headers unchanged and with
    X-Rate-Limit-Remaining set to the decimal of the minute limit minus the
    minute count after this request. *)
Theorem middleware_remaining_header (jwt_decode : string -> option Payload)
    (self : SecurityManager) (request : Request) (call_next : operation Response)
    (t_minute t_hour now : Z) (w : World) (token : string) (user_data : UserData)
    (response : Response) (w1 : World) :
  strip_bearer 0 (default "" (headers request !! "Authorization")) = token ->
  token <> "" ->
  verify_token jwt_decode self (PStr token) = Returned user_data ->
  fst (rate_limit_check self user_data t_minute t_hour now) = true ->
  await call_next w = (Returned response, w1) ->
  let m := refreshed now 60
             (minute (entry self (username user_data) t_minute t_hour)) in
  exists response',
    middleware jwt_decode self request call_next t_minute t_hour now w
    = (Returned response',
       snd (rate_limit_check self user_data t_minute t_hour now), w1) /\
    response_headers response' !! "X-Rate-Limit-Remaining"
    = Some (pretty (RATE_LIMIT_MINUTE - (count m + 1))) /\
    (forall h, h <> "X-Rate-Limit-Remaining" ->
               response_headers response' !! h = response_headers response !! h) /\
    body response' = body response.
Proof.
  intros Htok Hne Hver Hok Hw. cbv zeta.
  rewrite (middleware_authenticated jwt_decode _ _ _ _ _ _ _ token user_data
             Htok Hne Hver).
  pose proof (rate_limit_check_unfold self user_data t_minute t_hour now) as Hrl.
  cbv zeta in Hrl. rewrite Hrl in Hok |- *.
  destruct (_ || _); [discriminate|]. cbn [negb fst snd]. rewrite Hw.
  cbn [store _rate_limiters]. rewrite lookup_insert_eq.
  eexists. split; [reflexivity|]. cbn [response_headers body minute bump count].
  split; [apply lookup_insert_eq|]. split; [|reflexivity].
  intros h Hh. apply lookup_insert_ne. congruence.
Qed.

Lemma middleware_remaining_header_witness :
  exists response',
    middleware admin_only_decode Security.new admin_request ok_handler
      1000000 1000001 1000002 world0
    = (Returned response',
       snd (rate_limit_check Security.new
              {| username := "root"; role := ADMIN;
                 permissions := ["read"; "write"]; rate_limit := None |}
              1000000 1000001 1000002),
       {| clock := 1000; invoked := 1%nat; slept := []; handled := [] |}) /\
    response_headers response' !! "X-Rate-Limit-Remaining" = Some "99".
Proof.
  destruct (middleware_remaining_header admin_only_decode Security.new admin_request
              ok_handler 1000000 1000001 1000002 world0 "admin-token"
              {| username := "root"; role := ADMIN;
                 permissions := ["read"; "write"]; rate_limit := None |}
              {| response_headers := ∅; body := "ok" |}
              {| clock := 1000; invoked := 1%nat; slept := []; handled := [] |}
              eq_refl
              (fun H => eq_ind "admin-token"%string
                          (fun s => match s with
                                    | EmptyString => False
                                    | String _ _ => True
                                    end) I _ H)
              eq_refl eq_refl eq_refl)
    as (response' & Hrun & Hhdr & _).
  exists response'. split; [exact Hrun | exact Hhdr].
Defined.

(** ** Extracting the token from the Authorization header *)

Lemma prefix_split (a b : string) :
  String.prefix a b = true -> exists q, b = (a ++ q)%string.
Proof.
  revert b. induction a as [|c a IH]; intros b H.
  - exists b. reflexivity.
  - destruct b as [|c' b]; [discriminate|]. cbn in H.
    destruct (Ascii.ascii_dec c c') as [->|]; [|discriminate].
    destruct (IH b H) as [q ->]. exists q. reflexivity.
Qed.

Lemma prefix_app (a q : string) : String.prefix a (a ++ q)%string = true.
Proof.
  induction a as [|c a IH].
  - change (String.prefix "" q = true). destruct q; reflexivity.
  - change (String.prefix (String c a) (String c (a ++ q)%string) = true).
    cbn [String.prefix].
    destruct (Ascii.ascii_dec c c); [exact IH | contradiction].
Qed.

Lemma strip_bearer_match c s :
  String.prefix "Bearer " (String c s) = true ->
  strip_bearer 0 (String c s) = strip_bearer 6 s.
Proof. intros H. cbn [strip_bearer]. rewrite H. reflexivity. Qed.

Lemma strip_bearer_absent (s : string) :
  (forall p q, s <> (p ++ "Bearer " ++ q)%string) -> strip_bearer 0 s = s.
Proof.
  induction s as [|c s IH]; intros Habs; [reflexivity|].
  cbn [strip_bearer].
  destruct (String.prefix "Bearer " (String c s)) eqn:Hp.
  - apply prefix_split in Hp. destruct Hp as [q Hq].
    exfalso. apply (Habs ""%string q). exact Hq.
  - f_equal. apply IH. intros p q ->.
    apply (Habs (String c p) q). reflexivity.
Qed.

(** X20. Token extraction.  Every leading "Bearer " is dropped, and a text
    in which "Bearer " does not occur is left as it is; so the header
    "Bearer <token>" yields exactly the token when the token does not itself
    contain "Bearer ". *)
Theorem strip_bearer_header (token : string) :
  (forall rest, strip_bearer 0 ("Bearer " ++ rest)%string = strip_bearer 0 rest) /\
  ((forall p q, token <> (p ++ "Bearer " ++ q)%string) ->
   strip_bearer 0 token = token /\
   strip_bearer 0 ("Bearer " ++ token)%string = token).
Proof.
  assert (Hlead : forall rest,
            strip_bearer 0 ("Bearer " ++ rest)%string = strip_bearer 0 rest).
  { intros rest.
    pose proof (prefix_app "Bearer " rest) as Hp.
    lazy [String.append] in Hp |- *.
    rewrite (strip_bearer_match _ _ Hp). reflexivity. }
  split; [exact Hlead|].
  intros Habs. split; [apply strip_bearer_absent; exact Habs|].
  rewrite Hlead. apply strip_bearer_absent. exact Habs.
Qed.

Lemma strip_bearer_header_witness : strip_bearer 0 "Bearer abc" = "abc".
Proof.
  refine (proj2 (proj2 (strip_bearer_header "abc") _)).
  intros p q H.
  destruct p as [|? p]; lazy [String.append] in H; [discriminate H | injection H as _ H].
  destruct p as [|? p]; lazy [String.append] in H; [discriminate H | injection H as _ H].
  destruct p as [|? p]; lazy [String.append] in H; [discriminate H | injection H as _ H].
  destruct p as [|? p]; lazy [String.append] in H; discriminate H.
Defined.

(** ** Permission check and token issue *)

Lemma contains_occurs (p s : string) :
  contains p s = true <-> exists a b, s = (a ++ p ++ b)%string.
Proof.
  split.
  - induction s as [|c s IH]; cbn [contains]; intros H.
    + apply orb_true_iff in H. destruct H as [H|H]; [|discriminate].
      apply prefix_split in H. destruct H as [b Hb]. exists ""%string, b. exact Hb.
    + apply orb_true_iff in H. destruct H as [H|H].
      * apply prefix_split in H. destruct H as [b Hb]. exists ""%string, b. exact Hb.
      * destruct (IH H) as (a & b & ->). exists (String c a), b. reflexivity.
  - intros (a & b & ->). induction a as [|c a IH].
    + change (contains p (p ++ b)%string = true).
      destruct (p ++ b)%string eqn:Hpb; cbn [contains];
        rewrite <- Hpb, prefix_app; reflexivity.
    + change (contains p (String c (a ++ p ++ b)%string) = true).
      cbn [contains]. rewrite IH. apply orb_true_r.
Qed.

Lemma all_permissions_list l required :
  all_permissions (PermList l) required
  = Returned (forallb (fun perm => bool_decide (perm ∈ l)) required).
Proof.
  induction required as [|perm rest IH]; [reflexivity|].
  cbn [all_permissions has_permission forallb].
  destruct (bool_decide (perm ∈ l)); [exact IH | reflexivity].
Qed.

Lemma all_permissions_text s required :
  all_permissions (PermText s) required
  = Returned (forallb (fun perm => contains perm s) required).
Proof.
  induction required as [|perm rest IH]; [reflexivity|].
  cbn [all_permissions has_permission forallb].
  destruct (contains perm s); [exact IH | reflexivity].
Qed.

Lemma verify_token_raw_of_payload (jwt_decode : string -> option Payload)
    (self : SecurityManager) (token : string) :
  verify_token_raw (fun t => raw_of_payload <$> jwt_decode t) self token
  = match verify_token jwt_decode self (PStr token) with
    | Returned user_data =>
        Returned {| raw_username := username user_data; raw_role := role user_data;
                    raw_permissions := PermList (permissions user_data) |}
    | Raised e => Raised e
    end.
Proof.
  unfold verify_token_raw, verify_token. case_decide; [reflexivity|].
  destruct (jwt_decode token) as [payload|]; [|reflexivity]. cbn.
  destruct (sub payload); [|reflexivity].
  destruct (Role_of (role_claim payload)); [|reflexivity].
  destruct (permissions_claim payload); reflexivity.
Qed.

(** X21. What [check_permission] answers for a string token depends on the
    JSON type of the token's permissions claim.  A token that does not
    verify raises what [verify_token] raised; an Admin is granted whatever
    the claim.  Otherwise, with a list the answer is True exactly when every
    required permission is in the list; with a string it is True exactly
    when every required permission occurs in that string; with a value that
    cannot be searched (null, a number) the check raises TypeError as soon
    as one permission is required, and answers True when none is.  For
    claims that are lists this is [check_permission] as embedded above. *)
Theorem check_permission_by_claim_type (jwt_decode_raw : string -> option RawPayload)
    (self : SecurityManager) (token : string) (required_permissions : list string) :
  match verify_token_raw jwt_decode_raw self token with
  | Raised e =>
      check_permission_raw jwt_decode_raw self token required_permissions = Raised e
  | Returned user_data =>
      match raw_role user_data, raw_permissions user_data with
      | ADMIN, _ =>
          check_permission_raw jwt_decode_raw self token required_permissions
          = Returned true
      | _, PermList l =>
          exists granted,
            check_permission_raw jwt_decode_raw self token required_permissions
            = Returned granted /\
            (granted = true <-> forall perm, perm ∈ required_permissions -> perm ∈ l)
      | _, PermText s =>
          exists granted,
            check_permission_raw jwt_decode_raw self token required_permissions
            = Returned granted /\
            (granted = true <->
             forall perm, perm ∈ required_permissions ->
                          exists a b, s = (a ++ perm ++ b)%string)
      | _, PermNotIterable _ =>
          match required_permissions with
          | [] =>
              check_permission_raw jwt_decode_raw self token required_permissions
              = Returned true
          | _ :: _ =>
              exists msg,
                check_permission_raw jwt_decode_raw self token required_permissions
                = Raised (TypeError msg)
          end
      end
  end /\
  (forall jwt_decode : string -> option Payload,
     check_permission_raw (fun t => raw_of_payload <$> jwt_decode t) self token
       required_permissions
     = check_permission jwt_decode self (PStr token) required_permissions).
Proof.
  assert (Hforall : forall (f : string -> bool) (P : string -> Prop),
            (forall perm, f perm = true <-> P perm) ->
            forallb f required_permissions = true <->
            forall perm, perm ∈ required_permissions -> P perm).
  { intros f P HfP. rewrite forallb_forall. split; intros H perm Hin.
    - apply HfP, H, list_elem_of_In, Hin.
    - apply HfP, H, list_elem_of_In, Hin. }
  split.
  - unfold check_permission_raw.
    destruct (verify_token_raw jwt_decode_raw self token) as [user_data|e];
      [|reflexivity].
    assert (Hlist : forall l, exists granted,
              all_permissions (PermList l) required_permissions = Returned granted /\
              (granted = true <->
               forall perm, perm ∈ required_permissions -> perm ∈ l)).
    { intros l. eexists. split; [apply all_permissions_list|].
      apply Hforall. intros perm. apply bool_decide_eq_true. }
    assert (Htext : forall s, exists granted,
              all_permissions (PermText s) required_permissions = Returned granted /\
              (granted = true <->
               forall perm, perm ∈ required_permissions ->
                            exists a b, s = (a ++ perm ++ b)%string)).
    { intros s. eexists. split; [apply all_permissions_text|].
      apply Hforall. intros perm. apply contains_occurs. }
    assert (Hnone : forall ty,
              match required_permissions with
              | [] => all_permissions (PermNotIterable ty) required_permissions
                      = Returned true
              | _ :: _ => exists msg,
                  all_permissions (PermNotIterable ty) required_permissions
                  = Raised (TypeError msg)
              end).
    { intros ty. destruct required_permissions; [reflexivity|]. eexists. reflexivity. }
    destruct (raw_role user_data), (raw_permissions user_data);
      first [reflexivity | apply Hlist | apply Htext | apply Hnone].
  - intros jwt_decode. unfold check_permission_raw, check_permission.
    rewrite verify_token_raw_of_payload.
    destruct (verify_token jwt_decode self (PStr token)) as [user_data|e];
      [|reflexivity].
    cbn [raw_role raw_permissions].
    destruct (role user_data); [reflexivity | |]; apply all_permissions_list.
Qed.

(** X22. The claims of an issued access token are the caller's data with
    "exp" set (an "exp" in the data is overwritten, every other claim is
    kept): to [now + expires_delta] when a non-zero delta is given, and to
    [now + 30 minutes] both when no delta is given and when the delta is
    zero, which Python counts as false. *)
Theorem create_access_token_expiry (jwt_encode : gmap string claim -> string)
    (data : gmap string claim) (expires_delta : option Z) (now : Z) :
  exists claims,
    create_access_token jwt_encode data expires_delta now = jwt_encode claims /\
    claims !! "exp"
    = Some (CTime (now + match expires_delta with
                         | Some 0 | None => 30 * 60 * 1000000
                         | Some delta => delta
                         end)) /\
    (forall key, key <> "exp" -> claims !! key = data !! key).
Proof.
  exists (access_token_claims data expires_delta now).
  split; [reflexivity|]. unfold access_token_claims. split.
  - rewrite lookup_insert_eq. destruct expires_delta as [[|d|d]|]; reflexivity.
  - intros key Hkey. apply lookup_insert_ne. congruence.
Qed.

(** * Splitting a document into chunks *)

Import Chunker.

Section ChunkerFacts.
Variables (words : string -> nat) (self : DocumentProcessor).

Local Abbreviation run l := (fold_left (step words self) l ([], [], 0)).

Lemma run_snoc l x : run (l ++ [x]) = step words self (run l) x.
Proof. apply fold_left_app. Qed.

(** What the loop keeps true of the sentences read so far. *)
Lemma run_covers sentences :
  let '(chunks, current_chunk, current_size) := run sentences in
  (exists before, sentences = before ++ current_chunk) /\
  Forall (fun c => c <> [] /\ exists l1 l2, sentences = l1 ++ c ++ l2) chunks /\
  (forall s, s ∈ sentences ->
     s ∈ current_chunk \/ exists c, c ∈ chunks /\ s ∈ c) /\
  current_size = size_of words current_chunk /\
  (sentences <> [] -> current_chunk <> [] /\
                      (length chunks + 1 <= length sentences)%nat) /\
  (sentences = [] -> chunks = [] /\ current_chunk = []).
Proof.
  induction sentences as [|x done IH] using rev_ind.
  - cbn. split; [exists []; reflexivity|]. split; [constructor|].
    split; [intros s Hs; inversion Hs|]. repeat split; congruence.
  - rewrite run_snoc. destruct (run done) as [[chunks cur] size].
    destruct IH as ((before & Hbefore) & Hchunks & Hcover & Hsize & Hne & Hnil).
    assert (Hlen : (length chunks + (match cur with [] => 0 | _ => 1 end)
                    <= length done)%nat).
    { destruct done as [|d done'].
      - destruct (Hnil eq_refl) as [-> ->]. cbn. lia.
      - destruct (Hne ltac:(discriminate)) as [Hc Hl]. destruct cur; [congruence | lia]. }
    assert (Hold : Forall (fun c => c <> [] /\
                            exists l1 l2, done ++ [x] = l1 ++ c ++ l2) chunks).
    { eapply Forall_impl; [exact Hchunks|]. intros c [Hc (l1 & l2 & Hl)].
      split; [exact Hc|]. exists l1, (l2 ++ [x]). rewrite Hl, <- !app_assoc. reflexivity. }
    unfold step.
    destruct (size + Z.of_nat (words x) >? chunk_size self).
    + set (k := Z.to_nat (Z.max 0 (Z.of_nat (length cur) - chunk_overlap self))).
      split.
      { exists (before ++ take k cur). rewrite Hbefore, <- !app_assoc.
        rewrite (app_assoc (take k cur)), take_drop. reflexivity. }
      split.
      { destruct cur as [|c0 cur']; [exact Hold|].
        apply Forall_app. split; [exact Hold|]. constructor; [|constructor].
        split; [discriminate|]. exists before, [x]. rewrite Hbefore, <- app_assoc.
        reflexivity. }
      split.
      { intros s Hs. apply elem_of_app in Hs. destruct Hs as [Hs|Hs].
        - destruct (Hcover s Hs) as [Hin|(c & Hc & Hin)].
          + right. exists cur. split; [|exact Hin].
            destruct cur; [inversion Hin|]. apply elem_of_app. right. constructor.
          + right. exists c. split; [|exact Hin].
            destruct cur; [exact Hc|]. apply elem_of_app. left. exact Hc.
        - left. apply elem_of_app. right. exact Hs. }
      split; [reflexivity|]. split.
      { intros _. split; [destruct (drop k cur); discriminate|].
        rewrite length_app. cbn [length].
        destruct cur; [lia|]. rewrite length_app. cbn [length]. lia. }
      intros H. destruct done; discriminate H.
    + split; [exists before; rewrite Hbefore, <- app_assoc; reflexivity|].
      split; [exact Hold|]. split.
      { intros s Hs. apply elem_of_app in Hs. destruct Hs as [Hs|Hs].
        - destruct (Hcover s Hs) as [Hin|Hex]; [left|right; exact Hex].
          apply elem_of_app. left. exact Hin.
        - left. apply elem_of_app. right. exact Hs. }
      split.
      { rewrite Hsize. unfold size_of. rewrite fold_right_app. cbn [fold_right].
        clear. induction cur as [|c cur IH]; cbn [fold_right]; lia. }
      split.
      { intros _. split; [destruct cur; discriminate|].
        rewrite length_app. cbn [length]. destruct cur; lia. }
      intros H. destruct done; discriminate H.
Qed.

(** With no overlap the chunks read so far and the current chunk partition
    the sentences read, and only a single sentence can exceed the size. *)
Lemma run_partition sentences :
  chunk_overlap self <= 0 ->
  let '(chunks, current_chunk, current_size) := run sentences in
  concat chunks ++ current_chunk = sentences /\
  Forall (fun c => size_of words c <= chunk_size self \/ length c = 1%nat) chunks /\
  (size_of words current_chunk <= chunk_size self \/ (length current_chunk <= 1)%nat) /\
  current_size = size_of words current_chunk.
Proof.
  intros Hov. induction sentences as [|x done IH] using rev_ind.
  - cbn. repeat split; [constructor | right; cbn; lia].
  - rewrite run_snoc. destruct (run done) as [[chunks cur] size].
    destruct IH as (Hcat & Hchunks & Hcur & Hsize). unfold step.
    destruct (Z.gtb_spec (size + Z.of_nat (words x)) (chunk_size self)) as [Hgt|Hle].
    + rewrite drop_ge by lia. cbn [app].
      split.
      { destruct cur as [|c0 cur'].
        - rewrite app_nil_r in Hcat. rewrite Hcat. reflexivity.
        - rewrite concat_app. cbn [concat]. rewrite app_nil_r, Hcat. reflexivity. }
      split.
      { destruct cur as [|c0 cur']; [exact Hchunks|].
        apply Forall_app. split; [exact Hchunks|]. constructor; [|constructor].
        destruct Hcur as [Hcur|Hcur]; [left; exact Hcur | right; cbn in *; lia]. }
      split; [right; cbn; lia | reflexivity].
    + split; [rewrite app_assoc, Hcat; reflexivity|].
      split; [exact Hchunks|].
      assert (Hsz : size_of words (cur ++ [x]) = size + Z.of_nat (words x)).
      { rewrite Hsize. unfold size_of. rewrite fold_right_app. cbn [fold_right].
        clear. induction cur as [|c cur IH]; cbn [fold_right]; lia. }
      split; [left; rewrite Hsz; exact Hle | symmetry; exact Hsz].
Qed.

(** With an overlap of at least as many sentences as the document has, the
    current chunk never sheds a sentence. *)
Lemma run_prefixes sentences :
  Z.of_nat (length sentences) <= chunk_overlap self ->
  let '(chunks, current_chunk, _) := run sentences in
  current_chunk = sentences /\
  Forall (fun c => exists rest, sentences = c ++ rest) chunks.
Proof.
  induction sentences as [|x done IH] using rev_ind; intros Hov.
  - cbn. split; [reflexivity | constructor].
  - rewrite run_snoc. rewrite length_app in Hov. cbn [length] in Hov.
    specialize (IH ltac:(lia)). destruct (run done) as [[chunks cur] size].
    destruct IH as (-> & Hchunks).
    assert (Hold : Forall (fun c => exists rest, done ++ [x] = c ++ rest) chunks).
    { eapply Forall_impl; [exact Hchunks|]. intros c (rest & Hr).
      exists (rest ++ [x]). rewrite app_assoc, <- Hr. reflexivity. }
    unfold step. destruct (_ >? _).
    + replace (Z.to_nat (Z.max 0 (Z.of_nat (length done) - chunk_overlap self)))
        with 0%nat by lia.
      rewrite drop_0. split; [reflexivity|].
      destruct done as [|d done']; [exact Hold|].
      apply Forall_app. split; [exact Hold|]. constructor; [|constructor].
      exists [x]. reflexivity.
    + split; [reflexivity | exact Hold].
Qed.

End ChunkerFacts.

(** X23. Chunking loses nothing and invents nothing: every chunk is a
    non-empty run of consecutive sentences of the document, every sentence of
    the document is in at least one chunk, there are at most as many chunks
    as sentences (none for an empty document), and [_create_chunks] returns
    one joined text per chunk. *)
Theorem chunks_cover_document (words : string -> nat) (self : DocumentProcessor)
    (sentences : list string) :
  let chunks := chunk_lists words self sentences in
  Forall (fun c => c <> [] /\ exists l1 l2, sentences = l1 ++ c ++ l2) chunks /\
  (forall s, s ∈ sentences -> exists c, c ∈ chunks /\ s ∈ c) /\
  (length chunks <= length sentences)%nat /\
  (sentences = [] -> chunks = []) /\
  _create_chunks words self sentences = map (String.concat " ") chunks.
Proof.
  cbv zeta. unfold _create_chunks, chunk_lists.
  pose proof (run_covers words self sentences) as H.
  destruct (fold_left (step words self) sentences ([], [], 0)) as [[chunks cur] size].
  destruct H as ((before & Hbefore) & Hchunks & Hcover & _ & Hne & Hnil).
  destruct cur as [|c0 cur'].
  - split; [exact Hchunks|]. split.
    { intros s Hs. destruct (Hcover s Hs) as [Hin|Hex]; [inversion Hin | exact Hex]. }
    split.
    { destruct sentences; [destruct (Hnil eq_refl) as [-> _]; cbn; lia|].
      destruct (Hne ltac:(discriminate)) as [Hc _]. congruence. }
    split; [intros H; apply Hnil; exact H | reflexivity].
  - split.
    { apply Forall_app. split; [exact Hchunks|]. constructor; [|constructor].
      split; [discriminate|]. exists before, []. rewrite app_nil_r. exact Hbefore. }
    split.
    { intros s Hs. destruct (Hcover s Hs) as [Hin|(c & Hc & Hin)].
      - exists (c0 :: cur'). split; [|exact Hin]. apply elem_of_app. right. constructor.
      - exists c. split; [|exact Hin]. apply elem_of_app. left. exact Hc. }
    split.
    { rewrite length_app. cbn [length].
      destruct sentences; [destruct (Hnil eq_refl) as [_ Hc]; discriminate Hc|].
      destruct (Hne ltac:(discriminate)) as [_ Hl]. lia. }
    split; [|reflexivity].
    intros H. destruct (Hnil H) as [_ Hc]. discriminate Hc.
Qed.

(** X24. Without overlap ([chunk_overlap <= 0]) the chunks partition the
    document: put end to end they are exactly its sentences, in order, with
    none repeated; and every chunk holds at most [chunk_size] words unless it
    is a single sentence. *)
Theorem chunks_partition_without_overlap (words : string -> nat)
    (self : DocumentProcessor) (sentences : list string) :
  chunk_overlap self <= 0 ->
  concat (chunk_lists words self sentences) = sentences /\
  Forall (fun c => size_of words c <= chunk_size self \/ length c = 1%nat)
    (chunk_lists words self sentences).
Proof.
  intros Hov. unfold chunk_lists.
  pose proof (run_partition words self sentences Hov) as H.
  destruct (fold_left (step words self) sentences ([], [], 0)) as [[chunks cur] size].
  destruct H as (Hcat & Hchunks & Hcur & _).
  destruct cur as [|c0 cur'].
  - rewrite app_nil_r in Hcat. split; assumption.
  - split.
    + rewrite concat_app. cbn [concat]. rewrite app_nil_r. exact Hcat.
    + apply Forall_app. split; [exact Hchunks|]. constructor; [|constructor].
      destruct Hcur as [Hc|Hc]; [left; exact Hc | right; cbn in *; lia].
Qed.

Lemma chunks_partition_without_overlap_witness :
  let words := fun _ : string => 2%nat in
  let self := {| chunk_size := 4; chunk_overlap := 0 |} in
  concat (chunk_lists words self ["a b"; "c d"; "e f"]) = ["a b"; "c d"; "e f"] /\
  Forall (fun c => size_of words c <= 4 \/ length c = 1%nat)
    (chunk_lists words self ["a b"; "c d"; "e f"]).
Proof.
  cbv zeta.
  exact (chunks_partition_without_overlap (fun _ => 2%nat)
           {| chunk_size := 4; chunk_overlap := 0 |} ["a b"; "c d"; "e f"]
           (Zle_bool_imp_le 0 0 eq_refl)).
Defined.

(** X25. The overlap is counted in sentences, not in words.  When
    [chunk_overlap] is at least the number of sentences of the document, a
    chunk that is closed for being full is carried over whole into the next
    one: every chunk is a prefix of the document and the last chunk is the
    whole document, whatever [chunk_size] is. *)
Theorem chunks_grow_under_large_overlap (words : string -> nat)
    (self : DocumentProcessor) (sentences : list string) :
  Z.of_nat (length sentences) <= chunk_overlap self ->
  Forall (fun c => exists rest, sentences = c ++ rest)
    (chunk_lists words self sentences) /\
  (sentences <> [] -> last (chunk_lists words self sentences) = Some sentences).
Proof.
  intros Hov. unfold chunk_lists.
  pose proof (run_prefixes words self sentences Hov) as H.
  destruct (fold_left (step words self) sentences ([], [], 0)) as [[chunks cur] size].
  destruct H as (-> & Hchunks).
  destruct sentences as [|s0 rest].
  - split; [exact Hchunks | congruence].
  - split.
    + apply Forall_app. split; [exact Hchunks|]. constructor; [|constructor].
      exists []. rewrite app_nil_r. reflexivity.
    + intros _. apply last_snoc.
Qed.

Lemma chunks_grow_under_large_overlap_witness :
  let words := fun _ : string => 2%nat in
  let self := {| chunk_size := 3; chunk_overlap := 64 |} in
  chunk_lists words self ["a b"; "c d"; "e f"]
  = [["a b"]; ["a b"; "c d"]; ["a b"; "c d"; "e f"]] /\
  last (chunk_lists words self ["a b"; "c d"; "e f"]) = Some ["a b"; "c d"; "e f"].
Proof.
  cbv zeta. split; [reflexivity|].
  refine (proj2 (chunks_grow_under_large_overlap (fun _ => 2%nat)
            {| chunk_size := 3; chunk_overlap := 64 |} ["a b"; "c d"; "e f"] _) _).
  - cbn. lia.
  - discriminate.
Defined.

(** * The retry decorator and the clock *)

Section RetryClock.
Context {R : Type}.
Variables (max_retries retry_delay : Z) (func : operation R).

Local Abbreviation loop fuel := (wrapper_loop fuel max_retries retry_delay func).

Lemma durations_cons i k :
  durations func i (S k) = snd (func i) + durations func (S i) k.
Proof. reflexivity. Qed.

Lemma waited_total_ge l : total (waited l) >= total l.
Proof.
  unfold waited, total. induction l as [|x l IH]; cbn [map fold_right]; [lia|].
  pose proof (Z.le_max_r 0 x). lia.
Qed.

(** The clock after a run of the loop: the time spent in the [k]
    invocations plus the time slept between them. *)
Lemma loop_clock fuel : forall retries last_error w,
  0 <= retries < max_retries ->
  max_retries - retries <= Z.of_nat fuel ->
  exists o w' (k : nat),
    loop fuel retries last_error w = Some (o, w') /\
    (1 <= k)%nat /\
    invoked w' = (invoked w + k)%nat /\
    clock w'
    = clock w + durations func (invoked w) k
      + total (waited (backoffs retry_delay retries (k - 1))).
Proof.
  induction fuel as [|fuel IH]; intros retries last_error w Hr Hfuel; [cbn in Hfuel; lia|].
  destruct (await func w) as [r w1] eqn:Hw.
  pose proof (await_invoked _ _ _ _ Hw) as Hi.
  assert (Hc1 : clock w1 = clock w + snd (func (invoked w))).
  { unfold await in Hw. destruct (func (invoked w)). injection Hw as _ <-. reflexivity. }
  assert (Hlt : retries < max_retries) by lia.
  destruct r as [result|e].
  - exists (Returned result), w1, 1%nat.
    rewrite (loop_returns _ _ _ _ _ last_error _ _ _ Hlt Hw).
    split; [reflexivity|]. split; [lia|]. split; [lia|].
    rewrite Hc1. unfold durations, waited, backoffs, total. cbn. lia.
  - rewrite (loop_raises _ _ _ _ _ last_error _ _ _ Hlt Hw).
    destruct (after_failure_fields max_retries retry_delay retries e w1)
      as (A1 & _ & _ & A4).
    destruct (Z.ltb_spec (retries + 1) max_retries) as [Hmore|Hlast].
    + destruct (IH (retries + 1) (Some e)
                  (after_failure max_retries retry_delay retries e w1))
        as (o & w' & k & Heq & Hk & Hinv & Hclk); [lia | lia |].
      exists o, w', (S k). rewrite Heq. split; [reflexivity|]. split; [lia|].
      rewrite A1, Hi in Hinv, Hclk. split; [lia|].
      rewrite Hclk, A4, Hc1, durations_cons.
      replace (S k - 1)%nat with (S (k - 1)) by lia.
      rewrite backoffs_cons. unfold waited, total. cbn [map fold_right]. lia.
    + exists (Raised e), (after_failure max_retries retry_delay retries e w1), 1%nat.
      rewrite loop_done by lia. split; [reflexivity|]. split; [lia|].
      rewrite A1, A4, Hi, Hc1. split; [lia|].
      unfold durations, waited, backoffs, total. cbn. lia.
Qed.

End RetryClock.

(** C4. For [max_retries >= 1]: an operation that fails on its first N-1
    invocations and returns on the N-th, N <= max_retries, makes the wrapper
    return that result after exactly N invocations; an operation that fails
    every time is invoked exactly [max_retries] times and the exception of
    its last invocation is re-raised.  After the k-th failure, for each
    k < max_retries, the wrapper sleeps [retry_delay * 2^(k-1)], and not
    after the last.  The clock advances by the time spent in the operation
    plus the time slept, a sleep lasting its delay (no time for a delay that
    is not positive); so the total wait is at least
    [retry_delay * (2^0 + ... + 2^(max_retries-2))]. *)
Theorem retry_attempts_and_backoff {R} (max_retries retry_delay : Z)
    (func : operation R) (w : World) :
  1 <= max_retries ->
  (forall (N : nat) (result : R),
     (1 <= N)%nat -> Z.of_nat N <= max_retries ->
     (forall i, (i < N - 1)%nat -> is_raised (fst (func (invoked w + i)%nat)) = true) ->
     fst (func (invoked w + (N - 1))%nat) = Returned result ->
     exists w',
       wrapper max_retries retry_delay func w = Some (Returned result, w') /\
       invoked w' = (invoked w + N)%nat /\
       slept w' = slept w ++ backoffs retry_delay 0 (N - 1) /\
       clock w'
       = clock w + durations func (invoked w) N
         + total (waited (backoffs retry_delay 0 (N - 1)))) /\
  ((forall i, is_raised (fst (func i)) = true) ->
     let n := Z.to_nat max_retries in
     exists e w',
       wrapper max_retries retry_delay func w = Some (Raised e, w') /\
       fst (func (invoked w + (n - 1))%nat) = Raised e /\
       invoked w' = (invoked w + n)%nat /\
       slept w' = slept w ++ backoffs retry_delay 0 (n - 1) /\
       (forall k : nat, (1 <= k < n)%nat ->
          backoffs retry_delay 0 (n - 1) !! (k - 1)%nat
          = Some (retry_delay * 2 ^ (Z.of_nat k - 1))) /\
       total (backoffs retry_delay 0 (n - 1))
       = retry_delay * (2 ^ (max_retries - 1) - 1) /\
       clock w'
       = clock w + durations func (invoked w) n
         + total (waited (backoffs retry_delay 0 (n - 1))) /\
       total (waited (backoffs retry_delay 0 (n - 1)))
       >= retry_delay * (2 ^ (max_retries - 1) - 1)).
Proof.
  intros Hmax.
  destruct (retry_attempts_and_sleeps max_retries retry_delay func w Hmax)
    as [Hsucc Hfail].
  destruct (loop_clock max_retries retry_delay func (Z.to_nat max_retries) 0 None w)
    as (o & w2 & k & Hrun & Hk & Hinv2 & Hclk); [lia | lia |].
  fold (wrapper max_retries retry_delay func w) in Hrun.
  split.
  - intros N result HN HNmax Hpre Hok.
    destruct (Hsucc N result HN HNmax Hpre Hok) as (w' & Hw' & Hinv & Hslept).
    exists w'. rewrite Hw' in Hrun. injection Hrun as <- <-.
    assert (k = N) as -> by lia.
    repeat split; assumption.
  - intros Hall n. destruct (Hfail Hall) as (e & w' & Hw' & He & Hinv & Hslept & Hk' & Htot).
    exists e, w'. rewrite Hw' in Hrun. injection Hrun as <- <-.
    fold n in Hinv, Hslept, Hk', Htot, He.
    assert (k = n) as -> by lia.
    repeat split; try assumption.
    rewrite <- Htot. apply waited_total_ge.
Qed.

Lemma retry_attempts_and_backoff_witness :
  exists w',
    wrapper 3 1000000 (fun _ => (@Raised unit TimeoutError, 250)) world0
    = Some (Raised TimeoutError, w') /\
    invoked w' = 3%nat /\ slept w' = [1000000; 2000000] /\
    clock w' = 0 + (250 + 250 + 250) + (1000000 + 2000000).
Proof.
  destruct (proj2 (retry_attempts_and_backoff 3 1000000
                     (fun _ => (@Raised unit TimeoutError, 250)) world0
                     (Zle_bool_imp_le 1 3 eq_refl))
              (fun _ => eq_refl))
    as (e & w' & Hrun & Hlast & Hinv & Hslept & _ & _ & Hclk & _).
  exists w'. injection Hlast as <-.
  repeat split; assumption.
Defined.

(** * Retrying and the class of the failure: the claim *)

(** C5 as stated fails on the gateway.  The decorator of [call_service]
    names the classes it retries, [aiohttp.ClientError] and
    [asyncio.TimeoutError]; an exception of another class ends the call with
    the first attempt.  A call to a service that is not registered raises
    ValueError at once, without a second attempt or a sleep; and a request
    to a registered service that raises ValueError is invoked once, the call
    ending in the NameError that the breaker raises for it. *)
Lemma retry_without_filtering_refuted :
  ~ (forall (jitter : Z -> Z) (service_name : string) (make_request : operation unit)
            (self : ServiceIntegration) (w : World) e self' w',
       call_service jitter service_name make_request self w
       = Some (Raised e, self', w') ->
       length (slept w') = (length (slept w) + 2)%nat)
  /\ call_service (fun d => d) "billing" (fun _ => (Returned tt, 1000))
       (initialize Gateway.new) world0
     = Some (Raised (ValueError "Unknown service: billing"),
             initialize Gateway.new, world0)
  /\ (exists self' w',
        call_service (fun d => d) "model"
          (fun _ => (@Raised unit (ValueError "malformed body"), 1000))
          (initialize Gateway.new) world0
        = Some (Raised name_error, self', w') /\
        invoked w' = 1%nat /\ slept w' = []).
Proof.
  assert (Hbilling :
            call_service (fun d => d) "billing" (fun _ => (Returned tt, 1000))
              (initialize Gateway.new) world0
            = Some (Raised (ValueError "Unknown service: billing"),
                    initialize Gateway.new, world0)).
  { vm_compute. reflexivity. }
  split; [|split].
  - intros H. specialize (H _ _ _ _ _ _ _ _ Hbilling). discriminate H.
  - exact Hbilling.
  - eexists _, _. split; [vm_compute; reflexivity|]. split; reflexivity.
Qed.

(** C5, amended.  The [with_error_handling] wrapper retries a failure of
    any class: whatever the operation raises, it is invoked again until it
    returns or [max_retries] invocations are made, and the wrapper raises
    only when all of them are used up; two operations that fail at the same
    invocations, whatever they raise, are invoked equally often with the
    same sleeps.  The decorator of [call_service] does filter by class: an
    exception that is neither a ClientError nor a TimeoutError ends the
    call with the attempt that raised it, and one of these two classes,
    raised by the first call of the decorated function, is followed by a
    sleep and a second call. *)
Theorem retry_filtering_by_class {R} :
  (forall (max_retries retry_delay : Z) (func : operation R) (w : World),
     1 <= max_retries ->
     exists o w' (k : nat),
       wrapper max_retries retry_delay func w = Some (o, w') /\
       (1 <= k)%nat /\ Z.of_nat k <= max_retries /\
       invoked w' = (invoked w + k)%nat /\
       (forall j, (j < k - 1)%nat ->
                  is_raised (fst (func (invoked w + j)%nat)) = true) /\
       o = fst (func (invoked w + (k - 1))%nat) /\
       (is_raised o = true -> Z.of_nat k = max_retries)) /\
  (forall (max_retries retry_delay : Z) (f g : operation R) (w : World),
     (forall i, is_raised (fst (f i)) = is_raised (fst (g i))) ->
     exists o1 w1 o2 w2,
       wrapper max_retries retry_delay f w = Some (o1, w1) /\
       wrapper max_retries retry_delay g w = Some (o2, w2) /\
       invoked w1 = invoked w2 /\ slept w1 = slept w2 /\
       is_raised o1 = is_raised o2) /\
  (forall (jitter : Z -> Z) (service_name : string) (make_request : operation R)
          (self : ServiceIntegration) (w : World) e self1 w1,
     call_service_body service_name make_request self w = (Raised e, self1, w1) ->
     retried e = false ->
     call_service jitter service_name make_request self w
     = Some (Raised e, self1, w1)) /\
  (forall (S : Type) (jitter : Z -> Z)
          (target : S -> World -> outcome R * S * World) (s : S) (w : World)
          e s1 w1,
     target s w = (Raised e, s1, w1) ->
     match e with
     | ClientError _ | TimeoutError =>
         on_exception 3 retried 3 jitter target 0 s w
         = on_exception 2 retried 3 jitter target 1 s1 (sleep (jitter 1000000) w1)
     | _ => on_exception 3 retried 3 jitter target 0 s w = Some (Raised e, s1, w1)
     end).
Proof.
  split; [|split; [|split]].
  - intros max_retries retry_delay func w Hmax. unfold wrapper.
    destruct (loop_trace max_retries retry_delay func (Z.to_nat max_retries) 0 None w)
      as (o & w' & k & Heq & Hk & Hkmax & Hinv & _ & _ & Ho & Hraised & Hpre & _);
      [lia | lia |].
    exists o, w', k. rewrite Z.add_0_l in Hraised, Hkmax.
    repeat split; assumption.
  - intros max_retries retry_delay f g w Hsame.
    destruct (wrapper_total max_retries retry_delay f w) as ([o1 w1] & H1).
    destruct (wrapper_total max_retries retry_delay g w) as ([o2 w2] & H2).
    exists o1, w1, o2, w2. split; [exact H1|]. split; [exact H2|].
    pose proof (loop_uniform max_retries retry_delay f g Hsame
                  (Z.to_nat max_retries) 0 None None w w eq_refl eq_refl) as Hu.
    unfold wrapper in H1, H2. rewrite H1, H2 in Hu. exact Hu.
  - intros jitter service_name make_request self w e self1 w1 Hbody Hclass.
    unfold call_service.
    exact (on_exception_propagates retried 3 jitter _ 2 0 _ _ _ _ _ Hbody Hclass).
  - intros S jitter target s w e s1 w1 Htarget.
    assert (Hne : 0 + 1 <> 3) by discriminate.
    destruct e;
      first [ exact (on_exception_propagates retried 3 jitter target 2 0 _ _ _ _ _
                       Htarget eq_refl)
            | exact (on_exception_retries retried 3 jitter target 2 0 _ _ _ _ _
                       Htarget eq_refl Hne) ].
Qed.

Lemma retry_filtering_by_class_witness :
  call_service (fun d => d) "billing" (fun _ => (Returned tt, 1000))
    (initialize Gateway.new) world0
  = Some (Raised (ValueError "Unknown service: billing"),
          initialize Gateway.new, world0) /\
  on_exception 3 retried 3 (fun d => d)
    (fun (s : nat) w => (@Raised unit (ClientError "reset"), S s, w)) 0 0%nat world0
  = on_exception 2 retried 3 (fun d => d)
      (fun (s : nat) w => (@Raised unit (ClientError "reset"), S s, w)) 1 1%nat
      (sleep 1000000 world0).
Proof.
  split.
  - refine (proj1 (proj2 (proj2 (@retry_filtering_by_class unit)))
              (fun d => d) "billing" (fun _ => (Returned tt, 1000))
              (initialize Gateway.new) world0
              (ValueError "Unknown service: billing") _ _ _ eq_refl).
    vm_compute. reflexivity.
  - exact (proj2 (proj2 (proj2 (@retry_filtering_by_class unit)))
             nat (fun d => d)
             (fun (s : nat) w => (@Raised unit (ClientError "reset"), S s, w))
             0%nat world0 (ClientError "reset") 1%nat world0 eq_refl).
Defined.
